(** * The UDP layer of the network stack ([src/udp.c])

    A shallow embedding of [udp_checksum], [udp_in], [udp_out], [udp_open],
    [udp_close] and [udp_send], followed by the properties the
    specification states about them.

    Conventions of the embedding.
    - A [uint16_t] is a [Z] in [0, 65536); conversions to [uint16_t] are
      written out as [u16].
    - A byte is a [Byte.byte]; the packet memory is a [list byte].
    - The host is little-endian: [udp.c] converts between host and network
      order with an unconditional [swap16], which yields big-endian wire
      fields exactly on such a host.  [load16]/[store16] read and write a
      [uint16_t] struct field in host order.
    - A pointer into a packet buffer is an offset into the buffer's memory.
    - The calls that leave the UDP layer (a registered handler, [ip_out],
      [icmp_unreachable]) are recorded, in order, in a trace of [event]s;
      every function returns the buffer it mutated next to its result. *)

From Stdlib Require Import ZArith List Lia Bool.
From Stdlib.Strings Require Import Byte.
From stdpp Require Import gmap.
Import ListNotations.

Local Open Scope Z_scope.

(** ** Machine integers and bytes *)

(** Conversion of a C integer to [uint16_t]. *)
Definition u16 (z : Z) : Z := z mod 65536.

(** Modelled from the spec: the [swap16] macro of the stack's utility
    header, which is not among the sources; the spec only says that it
    converts a 16-bit field between network and host order.  It exchanges
    the two bytes of a 16-bit value. *)
Definition swap16 (x : Z) : Z :=
  Z.lor (Z.shiftl (Z.land x 255) 8) (Z.land (Z.shiftr x 8) 255).

Definition Z_of_byte (b : byte) : Z := Z.of_N (Byte.to_N b).

(** Conversion of a C integer to [uint8_t]. *)
Definition byte_of_Z (z : Z) : byte :=
  match Byte.of_N (Z.to_N (z mod 256)) with
  | Some b => b
  | None => x00
  end.

(** A [uint16_t] in host (little-endian) memory order. *)
Definition bytes_of_u16 (x : Z) : list byte :=
  [byte_of_Z x; byte_of_Z (Z.shiftr x 8)].

(** The big-endian (network order) encoding of a 16-bit number; used in
    statements only. *)
Definition be16 (x : Z) : list byte :=
  [byte_of_Z (x / 256); byte_of_Z x].

(** ** Raw memory *)

(** [memcpy(m + p, src, length src)]: bytes that would land past the end of
    the memory are not written. *)
Fixpoint mem_write (m : list byte) (p : nat) (src : list byte) : list byte :=
  match m with
  | [] => []
  | x :: m' =>
      match p with
      | S p' => x :: mem_write m' p' src
      | O =>
          match src with
          | [] => m
          | y :: src' => y :: mem_write m' O src'
          end
      end
  end.

(** [memcpy(dst, m + p, n)] *)
Definition mem_read (m : list byte) (p n : nat) : list byte :=
  take n (drop p m).

Definition byte_at (m : list byte) (p : nat) : byte := nth p m x00.

(** Reading a [uint16_t] field stored at offset [p]. *)
Definition load16 (m : list byte) (p : nat) : Z :=
  Z_of_byte (byte_at m p) + 256 * Z_of_byte (byte_at m (S p)).

(** Writing a [uint16_t] field at offset [p]. *)
Definition store16 (m : list byte) (p : nat) (x : Z) : list byte :=
  mem_write m p (bytes_of_u16 x).

(** ** Constants and wire layouts *)

(** Modelled from the spec: the protocol headers ([ip.h], [udp.h], [net.h])
    are not among the sources.  The spec fixes the UDP header at 8 bytes, the
    pseudo-header at 12 bytes, an IP address at 4 bytes and the UDP protocol
    identifier at 17; [ip_hdr_t] is the fixed IPv4 header without options,
    20 bytes, which is also what the push/pop bookkeeping of [udp_checksum]
    (push 20, pop 20 - 12, push 8, pop 20) relies on. *)
Definition sizeof_ip_hdr_t : nat := 20.

(** Modelled from the spec: [sizeof(udp_hdr_t)], the 8-byte UDP header. *)
Definition sizeof_udp_hdr_t : nat := 8.

(** Modelled from the spec: [sizeof(udp_peso_hdr_t)], the 12-byte
    pseudo-header. *)
Definition sizeof_udp_peso_hdr_t : nat := 12.

(** Modelled from the spec: the protocol identifier of UDP, 17. *)
Definition NET_PROTOCOL_UDP : Z := 17.

(** Modelled from the spec: an IP address, [uint8_t[NET_IP_LEN]] with
    [NET_IP_LEN = 4] (the pseudo-header holds 4 bytes for each). *)
Definition ip_t : Type := (byte * byte * byte * byte)%type.

Definition ip_bytes (a : ip_t) : list byte :=
  let '(a0, a1, a2, a3) := a in [a0; a1; a2; a3].

(** Modelled from the spec: [udp_hdr_t] of [udp.h],
    src_port(2) | dst_port(2) | length(2) | checksum(2). *)
Record udp_hdr_t := mk_udp_hdr {
  src_port16 : Z;
  dst_port16 : Z;
  total_len16 : Z;
  hdr_checksum16 : Z
}.

(** Offsets of the fields of [udp_hdr_t]. *)
Definition off_src_port16 : nat := 0.
Definition off_dst_port16 : nat := 2.
Definition off_total_len16 : nat := 4.
Definition off_checksum16 : nat := 6.

(** The object representation of a [udp_hdr_t]. *)
Definition udp_hdr_bytes (h : udp_hdr_t) : list byte :=
  bytes_of_u16 (src_port16 h) ++ bytes_of_u16 (dst_port16 h) ++
  bytes_of_u16 (total_len16 h) ++ bytes_of_u16 (hdr_checksum16 h).

(** Modelled from the spec: [udp_peso_hdr_t] of [udp.h],
    src_ip(4) | dst_ip(4) | zero(1) | protocol(1) | udp_length(2). *)
Record udp_peso_hdr_t := mk_udp_peso_hdr {
  peso_src_ip : ip_t;
  peso_dst_ip : ip_t;
  placeholder : Z;
  protocol : Z;
  peso_total_len16 : Z
}.

Definition udp_peso_hdr_bytes (h : udp_peso_hdr_t) : list byte :=
  ip_bytes (peso_src_ip h) ++ ip_bytes (peso_dst_ip h) ++
  [byte_of_Z (placeholder h); byte_of_Z (protocol h)] ++
  bytes_of_u16 (peso_total_len16 h).

(** ** Packet buffers *)

(** Modelled from the spec: [buf_t] and its push/pop primitives ([buf.h],
    [buf.c]) are not among the sources.  The spec describes a mutable byte
    sequence with head-room in front of it, a push/pop of a header at the
    front and of padding at the tail.  [mem] is the memory of the buffer,
    [data] the offset of [buf->data] in it; the bytes before [data] are the
    head-room, the bytes from [data] on are the buffer's content, so that
    [buf->len] is [len].  A primitive that cannot be carried out leaves the
    buffer as it is and reports a failure that [udp.c] never looks at.  The
    spec speaks of reserved head-room only; room past the tail is not
    limited here. *)
Record buf_t := mk_buf { mem : list byte; data : nat }.

Definition len (buf : buf_t) : nat := (length (mem buf) - data buf)%nat.

(** The content [buf->data[0 .. buf->len)]. *)
Definition buf_bytes (buf : buf_t) : list byte := drop (data buf) (mem buf).

(** The head-room in front of [buf->data]. *)
Definition headroom (buf : buf_t) : list byte := take (data buf) (mem buf).

(** Modelled from the spec: [buf_add_header], the push of [n] header bytes:
    [buf->data] moves [n] bytes into the head-room, if there is as much. *)
Definition buf_add_header (buf : buf_t) (n : nat) : buf_t :=
  if (n <=? data buf)%nat then mk_buf (mem buf) (data buf - n) else buf.

(** Modelled from the spec: [buf_remove_header], the pop of [n] header
    bytes: [buf->data] moves past them, if the content is as long. *)
Definition buf_remove_header (buf : buf_t) (n : nat) : buf_t :=
  if (n <=? len buf)%nat then mk_buf (mem buf) (data buf + n) else buf.

(** Modelled from the spec: [buf_add_padding], [n] zero bytes appended at
    the tail. *)
Definition buf_add_padding (buf : buf_t) (n : nat) : buf_t :=
  mk_buf (mem buf ++ repeat x00 n) (data buf).

(** Modelled from the spec: [buf_remove_padding], the last [n] bytes taken
    off the tail, if the content is as long. *)
Definition buf_remove_padding (buf : buf_t) (n : nat) : buf_t :=
  if (n <=? len buf)%nat
  then mk_buf (take (length (mem buf) - n) (mem buf)) (data buf)
  else buf.

(** [memcpy(buf->data, src, length src)] *)
Definition buf_write (buf : buf_t) (src : list byte) : buf_t :=
  mk_buf (mem_write (mem buf) (data buf) src) (data buf).

(** Modelled from the spec: [buf_init] of [buf.c], which resets a buffer to
    [n] bytes of content behind the head-room the allocator reserves;
    [room] is that head-room, with whatever bytes it holds. *)
Definition buf_init (room : list byte) (n : nat) : buf_t :=
  mk_buf (room ++ repeat x00 n) (length room).

(** ** The checksum primitive *)

(** Modelled from the spec, as part of [checksum16] below: the 16-bit words
    of a byte region as the host reads them; a trailing single byte counts
    as the low byte of a last word. *)
Fixpoint words16 (bs : list byte) : list Z :=
  match bs with
  | b0 :: b1 :: rest => (Z_of_byte b0 + 256 * Z_of_byte b1) :: words16 rest
  | [b0] => [Z_of_byte b0]
  | [] => []
  end.

(** Modelled from the spec, as part of [checksum16] below: one's-complement
    addition of two 16-bit words, the carry out of bit 15 added back in. *)
Definition ones_add (a w : Z) : Z :=
  let s := a + w in Z.land s 65535 + Z.shiftr s 16.

(** Modelled from the spec: [checksum16], the stack's checksum primitive,
    is not among the sources; the spec calls it the standard one's-complement
    16-bit-word checksum over a byte region: the complement of the
    one's-complement sum of the region's 16-bit words. *)
Definition checksum16 (bs : list byte) : Z :=
  Z.land (Z.lnot (fold_left ones_add (words16 bs) 0)) 65535.

(** ** The UDP layer *)

(** Modelled from the spec: the reason codes of the unreachable
    notification ([icmp.h] is not among the sources); [udp.c] uses the
    port-unreachable one only. *)
Inductive icmp_code : Type :=
  | ICMP_CODE_PROTOCOL_UNREACH
  | ICMP_CODE_PORT_UNREACH.

Section Udp.

(** A handler is a function pointer the application registers; the UDP
    layer stores it, compares it with nothing and calls it. *)
Context {udp_handler_t : Type}.

(** What the UDP layer asks of its neighbours. *)
Inductive event : Type :=
  | handler_call (handler : udp_handler_t) (payload : list byte)
                 (payload_len : nat) (src_ip : ip_t) (src_port : Z)
  | icmp_unreachable (recv_buf : buf_t) (src_ip : ip_t) (code : icmp_code)
  | ip_out (buf : buf_t) (ip : ip_t) (protocol : Z).

(** Modelled from the spec: [map_t] with [map_set], [map_get] and
    [map_delete] ([map.h], [map.c]) is not among the sources.  The spec's
    registry maps a 16-bit port to at most one handler: a set installs or
    overwrites the entry and fails only when the storage cannot grow, a
    delete removes the entry if there is one, a get does not change the
    table.  [capacity] is the number of entries the storage can hold. *)
Record map_t := mk_map {
  entries : gmap Z udp_handler_t;
  capacity : nat
}.

(** Modelled from the spec: [map_get], the registry's lookup; [None] is
    the null pointer of the source. *)
Definition map_get (m : map_t) (key : Z) : option udp_handler_t :=
  entries m !! key.

(** Modelled from the spec: [map_set], the registry's register.  Returns 0
    on success and -1 on failure, next to the table. *)
Definition map_set (m : map_t) (key : Z) (value : udp_handler_t)
  : Z * map_t :=
  match entries m !! key with
  | Some _ => (0, mk_map (<[key := value]> (entries m)) (capacity m))
  | None =>
      if (size (entries m) <? capacity m)%nat
      then (0, mk_map (<[key := value]> (entries m)) (capacity m))
      else (-1, m)
  end.

(** Modelled from the spec: [map_delete], the registry's unregister. *)
Definition map_delete (m : map_t) (key : Z) : map_t :=
  mk_map (delete key (entries m)) (capacity m).

(** [udp.c], lines 19-61.  Returns the checksum and the buffer as the
    call leaves it. *)
Definition udp_checksum (buf : buf_t) (src_ip dst_ip : ip_t) : Z * buf_t :=
  let buf := buf_add_header buf sizeof_ip_hdr_t in
  let ip_hdr := mem_read (mem buf) (data buf) sizeof_ip_hdr_t in
  let buf :=
    buf_remove_header buf (sizeof_ip_hdr_t - sizeof_udp_peso_hdr_t) in
  let udp_peso_hdr :=
    {| peso_src_ip := src_ip;
       peso_dst_ip := dst_ip;
       placeholder := 0;
       protocol := NET_PROTOCOL_UDP;
       peso_total_len16 :=
         swap16 (u16 (Z.of_nat (len buf) - Z.of_nat sizeof_udp_peso_hdr_t))
    |} in
  let buf := buf_write buf (udp_peso_hdr_bytes udp_peso_hdr) in
  let '(buf, paddled) :=
    if negb (Nat.eqb (len buf mod 2) 0)
    then (buf_add_padding buf 1, true)
    else (buf, false) in
  let checksum := checksum16 (buf_bytes buf) in
  let buf := buf_add_header buf sizeof_udp_hdr_t in
  let buf := buf_write buf ip_hdr in
  let buf := buf_remove_header buf sizeof_ip_hdr_t in
  let buf := if paddled then buf_remove_padding buf 1 else buf in
  (checksum, buf).

(** [udp.c], lines 69-103.  [udp_hdr] is the pointer taken at line 77; it
    keeps pointing at the header when [buf->data] moves.  The local
    [checksum16] of the source is called [saved] here.  Returns the buffer
    as the call leaves it and the trace of the calls made. *)
Definition udp_in (udp_table : map_t) (net_if_ip : ip_t)
    (buf : buf_t) (src_ip : ip_t) : buf_t * list event :=
  if (len buf <? sizeof_udp_hdr_t)%nat then (buf, [])
  else
    let udp_hdr := data buf in
    let saved := load16 (mem buf) (udp_hdr + off_checksum16) in
    let buf :=
      mk_buf (store16 (mem buf) (udp_hdr + off_checksum16) 0) (data buf) in
    let '(recomputed, buf) := udp_checksum buf src_ip net_if_ip in
    if negb (saved =? recomputed) then (buf, [])
    else
      let buf :=
        mk_buf (store16 (mem buf) (udp_hdr + off_checksum16) saved)
               (data buf) in
      let dst_port := swap16 (load16 (mem buf) (udp_hdr + off_dst_port16)) in
      match map_get udp_table dst_port with
      | None =>
          let buf := buf_add_header buf sizeof_ip_hdr_t in
          (buf, [icmp_unreachable buf src_ip ICMP_CODE_PORT_UNREACH])
      | Some handler =>
          let buf := buf_remove_header buf sizeof_udp_hdr_t in
          (buf,
           [handler_call handler (buf_bytes buf) (len buf) src_ip
              (load16 (mem buf) (udp_hdr + off_src_port16))])
      end.

(** [udp.c], lines 113-133. *)
Definition udp_out (net_if_ip : ip_t) (buf : buf_t) (src_port : Z)
    (dst_ip : ip_t) (dst_port : Z) : buf_t * list event :=
  let buf := buf_add_header buf sizeof_udp_hdr_t in
  let udp_hdr :=
    {| src_port16 := swap16 (u16 src_port);
       dst_port16 := swap16 (u16 dst_port);
       total_len16 := swap16 (u16 (Z.of_nat (len buf)));
       hdr_checksum16 := 0 |} in
  let buf := buf_write buf (udp_hdr_bytes udp_hdr) in
  let '(checksum, buf) := udp_checksum buf net_if_ip dst_ip in
  let udp_hdr :=
    {| src_port16 := src_port16 udp_hdr;
       dst_port16 := dst_port16 udp_hdr;
       total_len16 := total_len16 udp_hdr;
       hdr_checksum16 := checksum |} in
  let buf := buf_write buf (udp_hdr_bytes udp_hdr) in
  (buf, [ip_out buf dst_ip NET_PROTOCOL_UDP]).

(** [udp.c], lines 152-155: the port is a [uint16_t]. *)
Definition udp_open (udp_table : map_t) (port : Z) (handler : udp_handler_t)
  : Z * map_t :=
  map_set udp_table (u16 port) handler.

(** [udp.c], lines 162-165. *)
Definition udp_close (udp_table : map_t) (port : Z) : map_t :=
  map_delete udp_table (u16 port).

(** [udp.c], lines 176-181.  [room] is the head-room of [txbuf] after
    [buf_init]; [n] is the [uint16_t] length argument. *)
Definition udp_send (net_if_ip : ip_t) (room : list byte)
    (payload : list byte) (n : Z) (src_port : Z) (dst_ip : ip_t)
    (dst_port : Z) : buf_t * list event :=
  let n := Z.to_nat (u16 n) in
  let txbuf := buf_init room n in
  let txbuf := buf_write txbuf (take n payload) in
  udp_out net_if_ip txbuf src_port dst_ip dst_port.

End Udp.

Arguments event : clear implicits.
Arguments map_t : clear implicits.

(** Flipping bit [i] of a byte sequence: bit [i mod 8] of byte [i / 8]. *)
Definition flip_byte (k : nat) (b : byte) : byte :=
  byte_of_Z (Z.lxor (Z_of_byte b) (2 ^ Z.of_nat k)).

Fixpoint flip_bit (i : nat) (bs : list byte) : list byte :=
  match bs with
  | [] => []
  | b :: rest =>
      if (i <? 8)%nat then flip_byte i b :: rest
      else b :: flip_bit (i - 8) rest
  end.

(** The same, on the content of a buffer. *)
Definition buf_flip_bit (i : nat) (buf : buf_t) : buf_t :=
  mk_buf (take (data buf) (mem buf) ++ flip_bit i (drop (data buf) (mem buf)))
         (data buf).

(** ** Vocabulary of the statements *)

(** The buffer with the checksum field of its header zeroed (line 81). *)
Definition zero_checksum (buf : buf_t) : buf_t :=
  mk_buf (store16 (mem buf) (data buf + off_checksum16) 0) (data buf).

(** The checksum the datagram carries equals the one [udp_in] recomputes
    over it (lines 80-82). *)
Definition checksum_matches (net_if_ip : ip_t) (buf : buf_t)
    (src_ip : ip_t) : Prop :=
  load16 (mem buf) (data buf + off_checksum16) =
  fst (udp_checksum (zero_checksum buf) src_ip net_if_ip).

(** The region the checksum primitive is run over: pseudo-header, UDP
    bytes and the padding byte of an odd length. *)
Definition checksum_region (src_ip dst_ip : ip_t) (udp : list byte)
  : list byte :=
  (ip_bytes src_ip ++ ip_bytes dst_ip ++
   [x00; byte_of_Z NET_PROTOCOL_UDP] ++
   be16 (u16 (Z.of_nat (length udp)))) ++
  udp ++ (if Nat.eqb (length udp mod 2) 0 then [] else [x00]).

(** A big-endian 16-bit number read at offset [p]. *)
Definition be16_at (m : list byte) (p : nat) : Z :=
  256 * Z_of_byte (byte_at m p) + Z_of_byte (byte_at m (S p)).

(** The ports of the datagram a buffer holds, as numbers. *)
Definition wire_src_port (buf : buf_t) : Z :=
  be16_at (mem buf) (data buf + off_src_port16).

Definition wire_dst_port (buf : buf_t) : Z :=
  be16_at (mem buf) (data buf + off_dst_port16).

(** The length field of the datagram a buffer holds. *)
Definition wire_total_len (buf : buf_t) : Z :=
  be16_at (mem buf) (data buf + off_total_len16).

(** The datagram on the wire: big-endian ports and length, the checksum
    field as the host stored it, the payload. *)
Definition udp_datagram (src_port dst_port checksum : Z)
    (payload : list byte) : list byte :=
  be16 (u16 src_port) ++ be16 (u16 dst_port) ++
  be16 (u16 (Z.of_nat (sizeof_udp_hdr_t + length payload))) ++
  bytes_of_u16 checksum ++ payload.

(** The plain sum of a list of words. *)
Definition sum_words (ws : list Z) : Z := fold_right Z.add 0 ws.

Definition is_word (w : Z) : Prop := 0 <= w < 65536.

(** The byte-wise reading of the word sum: a byte at an even offset weighs
    1, a byte at an odd offset 256. *)
Fixpoint wsum (odd : bool) (bs : list byte) : Z :=
  match bs with
  | [] => 0
  | b :: rest =>
      (if odd then 256 else 1) * Z_of_byte b + wsum (negb odd) rest
  end.

(** ** Sample data *)

(** Two applications a port can be bound to. *)
Inductive app_handler : Type := dns_handler | echo_handler.

(** 192.168.1.2 and 192.168.1.3 *)
Definition ip_A : ip_t := (xc0, xa8, x01, x02).
Definition ip_B : ip_t := (xc0, xa8, x01, x03).

Definition payload_hi : list byte := [x68; x69].

(** Head-room as an allocator leaves it: 40 bytes of whatever. *)
Definition sample_room : list byte := repeat xaa 40.

Definition empty_table : map_t app_handler := mk_map ∅ 16.

Definition dns_table : map_t app_handler :=
  snd (udp_open empty_table 53 dns_handler).

(** "hi" sent by A from port 12345 to port 53 of B: the buffer [udp_out]
    hands to [ip_out]. *)
Definition sample_tx : buf_t :=
  fst (udp_send (udp_handler_t := app_handler)
         ip_A sample_room payload_hi 2 12345 ip_B 53).

(** Three bytes: shorter than a UDP header. *)
Definition short_buf : buf_t :=
  mk_buf (repeat xaa 20 ++ [x30; x39; x00]) 20.

(** A header with a zeroed checksum field and one byte of payload. *)
Definition odd_buf : buf_t :=
  mk_buf (repeat xaa 20 ++ [x30; x39; x00; x35; x00; x09; x00; x00; x68]) 20.

(** "hi" from port 12345 to port 53 with a length field of 0xFFFF and the
    checksum that goes with it. *)
Definition bogus_len_buf : buf_t :=
  mk_buf (repeat xaa 20 ++
          [x30; x39; x00; x35; xff; xff; xe3; xb6; x68; x69]) 20.

(** Eight zero bytes: the checksum field is zero, the checksum is not. *)
Definition zero_field_buf : buf_t := mk_buf (repeat xaa 20 ++ repeat x00 8) 20.

(** A payload that makes the checksum of the datagram from A, port 12345,
    to B, port 53, come out as 0x0000. *)
Definition zero_sum_payload : list byte := [x4c; x16].

(** "hi" from port 12345 to port 53 as A sends it to B, with the low byte
    of the checksum field off by one (e3 ad in place of e3 ac). *)
Definition corrupt_buf : buf_t :=
  mk_buf (repeat xaa 20 ++
          [x30; x39; x00; x35; x00; x0a; xe3; xad; x68; x69]) 20.

(** Three bytes of data, of which an application sends the first two. *)
Definition data_hi_bang : list byte := [x68; x69; x21].

(** 65528 bytes of data: a length the [uint16_t] length argument of
    [udp_send] holds, and with the 8 header bytes 65536 in all. *)
Definition oversize_payload : list byte := repeat x00 (Z.to_nat 65528).

(** ** Vocabulary of the further properties *)

(** What entitles [udp_in] to a call it makes on a datagram: a handler is
    called only for a datagram that verifies and only if it is the one
    registered under the datagram's destination port, with the bytes behind
    the header; an unreachable notification is asked for only for a datagram
    that verifies and whose destination port has no handler; nothing is
    ever transmitted. *)
Definition call_justified {udp_handler_t : Type}
    (udp_table : map_t udp_handler_t) (net_if_ip : ip_t) (buf : buf_t)
    (src_ip : ip_t) (e : event udp_handler_t) : Prop :=
  match e with
  | handler_call handler payload payload_len ip _ =>
      checksum_matches net_if_ip buf src_ip /\
      map_get udp_table (wire_dst_port buf) = Some handler /\
      payload = drop sizeof_udp_hdr_t (buf_bytes buf) /\
      payload_len = length payload /\
      ip = src_ip
  | icmp_unreachable _ ip code =>
      checksum_matches net_if_ip buf src_ip /\
      map_get udp_table (wire_dst_port buf) = None /\
      ip = src_ip /\ code = ICMP_CODE_PORT_UNREACH
  | ip_out _ _ _ => False
  end.

(** * Properties *)

(** ** Bytes and 16-bit fields *)

Lemma Z_of_byte_range (b : byte) : 0 <= Z_of_byte b < 256.
Proof.
  unfold Z_of_byte. pose proof (Byte.to_N_bounded b). lia.
Qed.

Lemma byte_of_Z_of_byte (b : byte) : byte_of_Z (Z_of_byte b) = b.
Proof.
  unfold byte_of_Z. pose proof (Z_of_byte_range b) as Hb.
  rewrite Z.mod_small by exact Hb.
  unfold Z_of_byte. rewrite N2Z.id, Byte.of_to_N. reflexivity.
Qed.

Lemma Z_of_byte_of_Z (z : Z) : Z_of_byte (byte_of_Z z) = z mod 256.
Proof.
  unfold byte_of_Z, Z_of_byte.
  pose proof (Z.mod_pos_bound z 256 ltac:(lia)) as Hz.
  destruct (Byte.of_N (Z.to_N (z mod 256))) as [b|] eqn:E.
  - apply Byte.to_of_N in E. rewrite E. lia.
  - apply Byte.of_N_None_iff in E. lia.
Qed.

Lemma byte_of_Z_mod (z : Z) : byte_of_Z (z mod 256) = byte_of_Z z.
Proof.
  unfold byte_of_Z. rewrite Z.mod_mod by lia. reflexivity.
Qed.

Lemma byte_of_Z_congr (x y : Z) :
  x mod 256 = y mod 256 -> byte_of_Z x = byte_of_Z y.
Proof.
  intros E. unfold byte_of_Z. rewrite E. reflexivity.
Qed.

Lemma lor_shiftl_low (a b : Z) :
  0 <= a -> 0 <= b < 256 -> Z.lor (Z.shiftl a 8) b = a * 256 + b.
Proof.
  intros Ha Hb.
  rewrite Z.shiftl_mul_pow2 by lia. change (2 ^ 8) with 256.
  assert (Hland : Z.land (a * 256) b = 0).
  { apply Z.bits_inj'. intros n Hn. rewrite Z.land_spec, Z.bits_0.
    destruct (Z.ltb_spec n 8) as [Hlt | Hge].
    - change 256 with (2 ^ 8). rewrite Z.mul_pow2_bits_low by lia. reflexivity.
    - replace b with (b mod 2 ^ 8) by (apply Z.mod_small; exact Hb).
      rewrite Z.mod_pow2_bits_high by lia. apply andb_false_r. }
  rewrite <- Z.lxor_lor by exact Hland.
  symmetry. apply Z.add_nocarry_lxor. exact Hland.
Qed.

Lemma swap16_arith (x : Z) :
  swap16 x = (x mod 256) * 256 + (x / 256) mod 256.
Proof.
  unfold swap16. change 255 with (Z.ones 8).
  rewrite !Z.land_ones by lia. rewrite Z.shiftr_div_pow2 by lia.
  change (2 ^ 8) with 256.
  pose proof (Z.mod_pos_bound x 256 ltac:(lia)).
  pose proof (Z.mod_pos_bound (x / 256) 256 ltac:(lia)).
  apply lor_shiftl_low; lia.
Qed.

Lemma u16_range (z : Z) : 0 <= u16 z < 65536.
Proof. unfold u16. apply Z.mod_pos_bound. lia. Qed.

(** On a little-endian host the object representation of [swap16 x] is
    the big-endian encoding of [x]. *)
Lemma bytes_of_swap16 (x : Z) : bytes_of_u16 (swap16 x) = be16 x.
Proof.
  unfold bytes_of_u16, be16. rewrite Z.shiftr_div_pow2 by lia.
  change (2 ^ 8) with 256. rewrite swap16_arith.
  pose proof (Z.mod_pos_bound x 256 ltac:(lia)).
  pose proof (Z.mod_pos_bound (x / 256) 256 ltac:(lia)).
  f_equal; [| f_equal].
  - apply byte_of_Z_congr.
    rewrite Z.add_comm, Z.mod_add by lia. apply Z.mod_mod. lia.
  - rewrite Z.add_comm, Z.div_add by lia.
    rewrite (Z.div_small ((x / 256) mod 256)) by lia.
    apply byte_of_Z_mod.
Qed.

(** A field read back from memory is what [bytes_of_u16] stored. *)
Lemma bytes_of_load16 (b0 b1 : byte) :
  bytes_of_u16 (Z_of_byte b0 + 256 * Z_of_byte b1) = [b0; b1].
Proof.
  unfold bytes_of_u16. rewrite Z.shiftr_div_pow2 by lia. change (2 ^ 8) with 256.
  pose proof (Z_of_byte_range b0). pose proof (Z_of_byte_range b1).
  f_equal; [| f_equal].
  - transitivity (byte_of_Z (Z_of_byte b0)); [| apply byte_of_Z_of_byte].
    apply byte_of_Z_congr.
    rewrite (Z.mul_comm 256), Z.mod_add by lia. reflexivity.
  - transitivity (byte_of_Z (Z_of_byte b1)); [| apply byte_of_Z_of_byte].
    f_equal. rewrite (Z.mul_comm 256), Z.div_add by lia.
    rewrite Z.div_small by lia. reflexivity.
Qed.

(** ** Raw memory *)

Lemma mem_write_nil (m : list byte) (p : nat) : mem_write m p [] = m.
Proof.
  revert p. induction m as [| x m IH]; intros p; simpl; [reflexivity |].
  destruct p; [reflexivity |]. rewrite IH. reflexivity.
Qed.

Lemma mem_write_length (m : list byte) (p : nat) (src : list byte) :
  length (mem_write m p src) = length m.
Proof.
  revert p src. induction m as [| x m IH]; intros p src; simpl; [reflexivity |].
  destruct p; simpl.
  - destruct src; simpl; [reflexivity |]. rewrite IH. reflexivity.
  - rewrite IH. reflexivity.
Qed.

Lemma mem_write_app_r (pre m : list byte) (k : nat) (src : list byte) :
  mem_write (pre ++ m) (length pre + k) src = pre ++ mem_write m k src.
Proof.
  induction pre as [| x pre IH]; simpl; [reflexivity |].
  rewrite IH. reflexivity.
Qed.

Lemma mem_write_over (old rest src : list byte) :
  length old = length src -> mem_write (old ++ rest) 0 src = src ++ rest.
Proof.
  revert src. induction old as [| x old IH]; intros [| y src] Hlen;
    simpl in *; try discriminate.
  - apply mem_write_nil.
  - rewrite IH by lia. reflexivity.
Qed.

Lemma mem_write_at (pre old rest src : list byte) :
  length old = length src ->
  mem_write (pre ++ old ++ rest) (length pre) src = pre ++ src ++ rest.
Proof.
  intros Hlen. rewrite <- (Nat.add_0_r (length pre)).
  rewrite mem_write_app_r, mem_write_over by exact Hlen. reflexivity.
Qed.

Lemma mem_read_at (pre x rest : list byte) :
  mem_read (pre ++ x ++ rest) (length pre) (length x) = x.
Proof.
  unfold mem_read. rewrite drop_app_length, take_app_length. reflexivity.
Qed.

(** ** Packet buffers *)

Lemma buf_add_header_at (m : list byte) (p n : nat) :
  buf_add_header (mk_buf m (p + n)) n = mk_buf m p.
Proof.
  unfold buf_add_header; simpl.
  destruct (Nat.leb_spec n (p + n)) as [_ | Hlt]; [| lia].
  f_equal. lia.
Qed.

Lemma buf_remove_header_at (m : list byte) (p n : nat) :
  (p + n <= length m)%nat ->
  buf_remove_header (mk_buf m p) n = mk_buf m (p + n).
Proof.
  intros Hle. unfold buf_remove_header, len; simpl.
  destruct (Nat.leb_spec n (length m - p)) as [_ | Hlt]; [reflexivity | lia].
Qed.

Lemma buf_remove_padding_at (m pad : list byte) (p : nat) :
  (p <= length m)%nat ->
  buf_remove_padding (mk_buf (m ++ pad) p) (length pad) = mk_buf m p.
Proof.
  intros Hle. unfold buf_remove_padding, len; simpl.
  rewrite length_app.
  destruct (Nat.leb_spec (length pad) (length m + length pad - p))
    as [_ | Hlt]; [| lia].
  f_equal. replace (length m + length pad - length pad)%nat with (length m) by lia.
  apply take_app_length.
Qed.

(** A buffer with a header's worth of head-room, taken apart: the memory
    before the 20 bytes in front of [buf->data], those 20 bytes as 8 + 12,
    and the content. *)
Lemma buf_split (buf : buf_t) :
  (sizeof_ip_hdr_t <= data buf)%nat ->
  (data buf <= length (mem buf))%nat ->
  exists pre h1 h2 : list byte,
    length h1 = 8%nat /\ length h2 = 12%nat /\
    buf = mk_buf (pre ++ h1 ++ h2 ++ buf_bytes buf) (length pre + 20).
Proof.
  unfold sizeof_ip_hdr_t, buf_bytes. destruct buf as [m p]; simpl.
  intros Hroom Hwf.
  exists (take (p - 20) m), (take 8 (drop (p - 20) m)),
    (take 12 (drop (p - 12) m)).
  rewrite !length_take, !length_drop.
  split; [lia |]. split; [lia |].
  f_equal; [| lia].
  rewrite <- (take_drop (p - 20) m) at 1. f_equal.
  rewrite <- (take_drop 8 (drop (p - 20) m)) at 1. f_equal.
  rewrite drop_drop. replace (p - 20 + 8)%nat with (p - 12)%nat by lia.
  rewrite <- (take_drop 12 (drop (p - 12) m)) at 1. f_equal.
  rewrite drop_drop. f_equal. lia.
Qed.

(** ** The checksum engine *)

Section Checksum.

Variables (src_ip dst_ip : ip_t).

Lemma ip_bytes_length (a : ip_t) : length (ip_bytes a) = 4%nat.
Proof. destruct a as [[[a0 a1] a2] a3]. reflexivity. Qed.

(** What [udp_checksum] does on a buffer whose head-room holds the 20
    bytes [h1 ++ h2]: it returns the checksum of the pseudo-header view
    and puts every byte back. *)
Lemma udp_checksum_at (pre h1 h2 udp : list byte) :
  length h1 = 8%nat -> length h2 = 12%nat ->
  udp_checksum (mk_buf (pre ++ h1 ++ h2 ++ udp) (length pre + 20))
    src_ip dst_ip =
  (checksum16 (checksum_region src_ip dst_ip udp),
   mk_buf (pre ++ h1 ++ h2 ++ udp) (length pre + 20)).
Proof.
  intros Hh1 Hh2. unfold udp_checksum.
  unfold sizeof_ip_hdr_t, sizeof_udp_peso_hdr_t, sizeof_udp_hdr_t.
  change (20 - 12)%nat with 8%nat.
  rewrite buf_add_header_at. cbv zeta.
  assert (Hip : mem_read (pre ++ h1 ++ h2 ++ udp) (length pre) 20
                = h1 ++ h2).
  { replace 20%nat with (length (h1 ++ h2)) by (rewrite length_app; lia).
    rewrite (app_assoc h1 h2 udp). apply mem_read_at. }
  simpl mem. simpl data. rewrite Hip.
  rewrite buf_remove_header_at
    by (rewrite !length_app; lia).
  assert (Hlen : len (mk_buf (pre ++ h1 ++ h2 ++ udp) (length pre + 8))
                 = (12 + length udp)%nat).
  { unfold len; simpl. rewrite !length_app. lia. }
  rewrite Hlen.
  replace (Z.of_nat (12 + length udp) - Z.of_nat 12)
    with (Z.of_nat (length udp)) by lia.
  set (peso := udp_peso_hdr_bytes _).
  assert (Hpeso : length peso = 12%nat).
  { unfold peso, udp_peso_hdr_bytes; simpl.
    rewrite !length_app, !ip_bytes_length. reflexivity. }
  assert (Hw1 : buf_write (mk_buf (pre ++ h1 ++ h2 ++ udp) (length pre + 8))
                  peso
                = mk_buf (pre ++ h1 ++ peso ++ udp) (length pre + 8)).
  { unfold buf_write; simpl. f_equal.
    rewrite mem_write_app_r. f_equal.
    replace 8%nat with (length h1 + 0)%nat by lia.
    rewrite mem_write_app_r. f_equal.
    apply mem_write_over. lia. }
  rewrite Hw1.
  assert (Hlen' : len (mk_buf (pre ++ h1 ++ peso ++ udp) (length pre + 8))
                  = (12 + length udp)%nat).
  { unfold len; simpl. rewrite !length_app. lia. }
  rewrite Hlen'.
  assert (Hpar : ((12 + length udp) mod 2 =? 0)%nat
                 = (length udp mod 2 =? 0)%nat).
  { f_equal. change 12%nat with (6 * 2)%nat.
    rewrite Nat.add_comm. apply Nat.Div0.mod_add. }
  rewrite Hpar.
  assert (Hregion : forall pad : list byte,
    buf_bytes (mk_buf ((pre ++ h1 ++ peso ++ udp) ++ pad) (length pre + 8))
    = peso ++ udp ++ pad).
  { intros pad. unfold buf_bytes; simpl.
    rewrite <- !app_assoc. rewrite <- drop_drop, drop_app_length.
    rewrite <- Hh1. rewrite drop_app_length. reflexivity. }
  assert (Hrestore : forall pad : list byte,
    buf_remove_header
      (buf_write
         (buf_add_header
            (mk_buf ((pre ++ h1 ++ peso ++ udp) ++ pad) (length pre + 8)) 8)
         (h1 ++ h2)) 20
    = mk_buf ((pre ++ h1 ++ h2 ++ udp) ++ pad) (length pre + 20)).
  { intros pad. rewrite buf_add_header_at.
    unfold buf_write; simpl.
    replace ((pre ++ h1 ++ peso ++ udp) ++ pad)
      with (pre ++ (h1 ++ peso) ++ (udp ++ pad))
      by (rewrite <- !app_assoc; reflexivity).
    rewrite mem_write_at by (rewrite !length_app; lia).
    rewrite buf_remove_header_at by (rewrite !length_app; lia).
    f_equal. rewrite <- !app_assoc. reflexivity. }
  assert (Hregion_eq : forall pad : list byte,
    pad = (if (length udp mod 2 =? 0)%nat then [] else [x00]) ->
    peso ++ udp ++ pad = checksum_region src_ip dst_ip udp).
  { intros pad ->. unfold checksum_region, peso, udp_peso_hdr_bytes; simpl.
    rewrite bytes_of_swap16. rewrite <- !app_assoc. reflexivity. }
  destruct (length udp mod 2 =? 0)%nat eqn:Epar; simpl negb; cbv iota beta.
  - specialize (Hregion []). specialize (Hrestore []).
    rewrite app_nil_r in Hregion, Hrestore.
    rewrite Hregion, Hrestore. rewrite (Hregion_eq [] eq_refl).
    rewrite app_nil_r. reflexivity.
  - unfold buf_add_padding; simpl mem; simpl data; simpl repeat.
    rewrite Hregion, Hrestore. rewrite (Hregion_eq [x00] eq_refl).
    pose proof (buf_remove_padding_at (pre ++ h1 ++ h2 ++ udp) [x00]
                  (length pre + 20)) as Hpad.
    simpl length in Hpad. rewrite Hpad; [reflexivity |].
    rewrite !length_app. lia.
Qed.

(** The value [udp_checksum] returns, for any buffer with the head-room
    the function needs. *)
Lemma udp_checksum_value (buf : buf_t) :
  (sizeof_ip_hdr_t <= data buf)%nat ->
  (data buf <= length (mem buf))%nat ->
  fst (udp_checksum buf src_ip dst_ip) =
  checksum16 (checksum_region src_ip dst_ip (buf_bytes buf)).
Proof.
  intros Hroom Hwf.
  destruct (buf_split buf Hroom Hwf) as (pre & h1 & h2 & Hh1 & Hh2 & Hbuf).
  rewrite Hbuf at 1. rewrite udp_checksum_at by assumption. reflexivity.
Qed.

(** ... and the buffer it leaves. *)
Lemma udp_checksum_buf (buf : buf_t) :
  (sizeof_ip_hdr_t <= data buf)%nat ->
  (data buf <= length (mem buf))%nat ->
  snd (udp_checksum buf src_ip dst_ip) = buf.
Proof.
  intros Hroom Hwf.
  destruct (buf_split buf Hroom Hwf) as (pre & h1 & h2 & Hh1 & Hh2 & Hbuf).
  rewrite Hbuf at 1. rewrite udp_checksum_at by assumption.
  simpl. symmetry. exact Hbuf.
Qed.

End Checksum.

(** ** 16-bit fields in memory *)

Lemma split_at2 (m : list byte) (p : nat) :
  (p + 2 <= length m)%nat ->
  exists (pre : list byte) (c0 c1 : byte) (rest : list byte),
    m = pre ++ c0 :: c1 :: rest /\ length pre = p.
Proof.
  intros Hle.
  destruct (drop p m) as [| c0 [| c1 rest]] eqn:E;
    try (apply (f_equal length) in E; rewrite length_drop in E;
         simpl in E; lia).
  exists (take p m), c0, c1, rest. split.
  - rewrite <- E. symmetry. apply take_drop.
  - rewrite length_take. lia.
Qed.

Lemma load16_at (pre : list byte) (c0 c1 : byte) (rest : list byte) :
  load16 (pre ++ c0 :: c1 :: rest) (length pre) =
  Z_of_byte c0 + 256 * Z_of_byte c1.
Proof.
  unfold load16, byte_at. rewrite nth_middle.
  replace (pre ++ c0 :: c1 :: rest) with ((pre ++ [c0]) ++ c1 :: rest)
    by (rewrite <- app_assoc; reflexivity).
  replace (S (length pre)) with (length (pre ++ [c0]))
    by (rewrite length_app; simpl; lia).
  rewrite nth_middle. reflexivity.
Qed.

Lemma store16_at (pre : list byte) (c0 c1 : byte) (rest : list byte) (x : Z) :
  store16 (pre ++ c0 :: c1 :: rest) (length pre) x =
  pre ++ bytes_of_u16 x ++ rest.
Proof.
  unfold store16.
  apply (mem_write_at pre [c0; c1] rest (bytes_of_u16 x)). reflexivity.
Qed.

(** Zeroing a field and storing its old value again gives the memory
    back (lines 80, 81 and 86 of [udp_in]). *)
Lemma store16_restore (m : list byte) (p : nat) :
  (p + 2 <= length m)%nat ->
  store16 (store16 m p 0) p (load16 m p) = m.
Proof.
  intros Hle. destruct (split_at2 m p Hle) as (pre & c0 & c1 & rest & -> & <-).
  rewrite load16_at, store16_at.
  change (bytes_of_u16 0 ++ rest) with (x00 :: x00 :: rest).
  rewrite store16_at, bytes_of_load16. reflexivity.
Qed.

Lemma load16_store16 (m : list byte) (p : nat) (x : Z) :
  (p + 2 <= length m)%nat -> 0 <= x < 65536 ->
  load16 (store16 m p x) p = x.
Proof.
  intros Hle Hx. destruct (split_at2 m p Hle) as (pre & c0 & c1 & rest & -> & <-).
  rewrite store16_at. unfold bytes_of_u16. simpl app.
  rewrite load16_at, !Z_of_byte_of_Z.
  rewrite Z.shiftr_div_pow2 by lia. change (2 ^ 8) with 256.
  rewrite (Z.mod_small (x / 256)) by (split; [apply Z.div_pos | apply Z.div_lt_upper_bound]; lia).
  pose proof (Z.div_mod x 256 ltac:(lia)). lia.
Qed.

Lemma store16_length (m : list byte) (p : nat) (x : Z) :
  length (store16 m p x) = length m.
Proof. apply mem_write_length. Qed.

(** Memory operations at [buf->data + k] seen on the content. *)
Lemma drop_mem_write (m : list byte) (p k : nat) (src : list byte) :
  (p <= length m)%nat ->
  drop p (mem_write m (p + k) src) = mem_write (drop p m) k src.
Proof.
  intros Hle. rewrite <- (take_drop p m) at 1.
  replace (p + k)%nat with (length (take p m) + k)%nat
    by (rewrite length_take; lia).
  rewrite mem_write_app_r.
  replace p with (length (take p m)) at 1 by (rewrite length_take; lia).
  apply drop_app_length.
Qed.

Lemma nth_drop (m : list byte) (p k : nat) :
  nth k (drop p m) x00 = nth (p + k) m x00.
Proof.
  revert m. induction p as [| p IH]; intros m; [reflexivity |].
  destruct m as [| x m]; simpl.
  - destruct k; reflexivity.
  - apply IH.
Qed.

Lemma load16_drop (m : list byte) (p k : nat) :
  load16 (drop p m) k = load16 m (p + k).
Proof.
  unfold load16, byte_at. rewrite !nth_drop.
  replace (p + S k)%nat with (S (p + k)) by lia. reflexivity.
Qed.

(** ** The inbound processor *)

Lemma zero_checksum_bytes (buf : buf_t) :
  (data buf <= length (mem buf))%nat ->
  buf_bytes (zero_checksum buf) = store16 (buf_bytes buf) off_checksum16 0.
Proof.
  intros Hwf. unfold zero_checksum, buf_bytes, store16; simpl.
  apply drop_mem_write. exact Hwf.
Qed.

Section Inbound.

Context {udp_handler_t : Type}.
Variables (udp_table : map_t udp_handler_t) (net_if_ip : ip_t).

(** [udp_in] on a buffer that holds a header and has the head-room
    [udp_checksum] needs: the three ways it can end. *)
Lemma udp_in_cases (buf : buf_t) (src_ip : ip_t) :
  (sizeof_ip_hdr_t <= data buf)%nat ->
  (sizeof_udp_hdr_t <= len buf)%nat ->
  udp_in udp_table net_if_ip buf src_ip =
  if negb (load16 (mem buf) (data buf + off_checksum16) =?
           fst (udp_checksum (zero_checksum buf) src_ip net_if_ip))
  then (zero_checksum buf, [])
  else
    match map_get udp_table
            (swap16 (load16 (mem buf) (data buf + off_dst_port16))) with
    | None =>
        (buf_add_header buf sizeof_ip_hdr_t,
         [icmp_unreachable (buf_add_header buf sizeof_ip_hdr_t) src_ip
            ICMP_CODE_PORT_UNREACH])
    | Some handler =>
        (buf_remove_header buf sizeof_udp_hdr_t,
         [handler_call handler (drop sizeof_udp_hdr_t (buf_bytes buf))
            (len buf - sizeof_udp_hdr_t) src_ip
            (load16 (mem buf) (data buf + off_src_port16))])
    end.
Proof.
  intros Hroom Hlen. unfold udp_in.
  assert (Hwf : (data buf + 8 <= length (mem buf))%nat)
    by (unfold len, sizeof_udp_hdr_t in Hlen; lia).
  destruct (Nat.ltb_spec (len buf) sizeof_udp_hdr_t) as [Hlt | _]; [lia |].
  fold (zero_checksum buf).
  pose proof (udp_checksum_buf src_ip net_if_ip (zero_checksum buf)) as Hpure.
  simpl data in Hpure. simpl mem in Hpure.
  rewrite store16_length in Hpure.
  specialize (Hpure Hroom ltac:(lia)).
  destruct (udp_checksum (zero_checksum buf) src_ip net_if_ip)
    as [recomputed buf'] eqn:Ecs.
  simpl in Hpure. subst buf'. simpl fst.
  destruct (negb _); [reflexivity |].
  cbv zeta. simpl data. simpl mem.
  rewrite store16_restore by (unfold off_checksum16; lia).
  replace (mk_buf (mem buf) (data buf)) with buf by (destruct buf; reflexivity).
  destruct (map_get udp_table _) as [handler |]; [| reflexivity].
  unfold buf_remove_header.
  destruct (Nat.leb_spec sizeof_udp_hdr_t (len buf)) as [_ | Hlt]; [| lia].
  unfold buf_bytes, len; simpl.
  rewrite drop_drop.
  replace (length (mem buf) - (data buf + sizeof_udp_hdr_t))%nat
    with (length (mem buf) - data buf - sizeof_udp_hdr_t)%nat by lia.
  reflexivity.
Qed.

End Inbound.

(** ** The checksum primitive *)

Lemma ones_add_arith (a w : Z) :
  0 <= a + w -> ones_add a w = a + w - 65535 * ((a + w) / 65536).
Proof.
  intros Hs. unfold ones_add. cbv zeta.
  change 65535 with (Z.ones 16) at 1. rewrite Z.land_ones by lia.
  rewrite Z.shiftr_div_pow2 by lia. change (2 ^ 16) with 65536.
  pose proof (Z.div_mod (a + w) 65536 ltac:(lia)). lia.
Qed.

Lemma ones_add_range (a w : Z) :
  0 <= a < 65536 -> 0 <= w < 65536 -> 0 <= ones_add a w < 65536.
Proof.
  intros Ha Hw. rewrite ones_add_arith by lia.
  assert (Hq : (a + w) / 65536 = 0 \/ (a + w) / 65536 = 1).
  { assert (0 <= (a + w) / 65536 < 2); [| lia].
    split; [apply Z.div_pos | apply Z.div_lt_upper_bound]; lia. }
  pose proof (Z.div_mod (a + w) 65536 ltac:(lia)).
  pose proof (Z.mod_pos_bound (a + w) 65536 ltac:(lia)).
  destruct Hq as [Hq | Hq]; rewrite Hq in *; lia.
Qed.

(** The one's-complement sum is a 16-bit word congruent to the plain sum
    modulo 65535. *)
Lemma ones_sum_spec (ws : list Z) (acc : Z) :
  Forall is_word ws -> is_word acc ->
  is_word (fold_left ones_add ws acc) /\
  exists q : Z, acc + sum_words ws = fold_left ones_add ws acc + 65535 * q.
Proof.
  intros Hws. revert acc.
  induction Hws as [| w ws Hw Hws IH]; intros acc Hacc; simpl.
  - split; [exact Hacc |]. exists 0. lia.
  - unfold is_word in *.
    pose proof (ones_add_range acc w Hacc Hw) as Hr.
    destruct (IH (ones_add acc w) Hr) as [Hrange [q Hq]].
    split; [exact Hrange |].
    pose proof (ones_add_arith acc w ltac:(lia)) as Hadd.
    exists (q + (acc + w) / 65536). unfold sum_words in *. simpl. lia.
Qed.

Lemma words16_are_words (bs : list byte) : Forall is_word (words16 bs).
Proof.
  assert (H : forall n (l : list byte), (length l <= n)%nat ->
                Forall is_word (words16 l)).
  { induction n as [| n IH]; intros [| b0 [| b1 rest]] Hlen; simpl in *;
      try lia; try (solve [constructor]).
    - constructor; [| constructor].
      pose proof (Z_of_byte_range b0). unfold is_word. lia.
    - constructor; [| apply IH; lia].
      pose proof (Z_of_byte_range b0). pose proof (Z_of_byte_range b1).
      unfold is_word. lia. }
  apply (H (length bs)). lia.
Qed.

Lemma lnot_land_16 (r : Z) :
  0 <= r < 65536 -> Z.land (Z.lnot r) 65535 = 65535 - r.
Proof.
  intros Hr. change 65535 with (Z.ones 16) at 1.
  rewrite Z.land_ones by lia. change (2 ^ 16) with 65536.
  unfold Z.lnot. symmetry.
  apply (Z.mod_unique (Z.pred (- r)) 65536 (-1) (65535 - r)); lia.
Qed.

Lemma checksum16_range (bs : list byte) : 0 <= checksum16 bs < 65536.
Proof.
  unfold checksum16.
  destruct (ones_sum_spec (words16 bs) 0 (words16_are_words bs))
    as [Hr _]; [unfold is_word; lia |].
  rewrite lnot_land_16 by exact Hr. unfold is_word in Hr. lia.
Qed.

Lemma sum_words16 (bs : list byte) : sum_words (words16 bs) = wsum false bs.
Proof.
  assert (H : forall n (l : list byte), (length l <= n)%nat ->
                sum_words (words16 l) = wsum false l).
  { induction n as [| n IH]; intros [| b0 [| b1 rest]] Hlen; simpl in *;
      try lia.
    rewrite IH by lia. lia. }
  apply (H (length bs)). lia.
Qed.

(** Two regions whose word sums differ by a power of two below 2^16 have
    different checksums. *)
Lemma checksum16_differs (bs bs' : list byte) (k : Z) :
  0 <= k < 16 ->
  wsum false bs' = wsum false bs + 2 ^ k \/
  wsum false bs' = wsum false bs - 2 ^ k ->
  checksum16 bs' <> checksum16 bs.
Proof.
  intros Hk Hdiff. unfold checksum16.
  destruct (ones_sum_spec (words16 bs) 0 (words16_are_words bs))
    as [Hr [q Hq]]; [unfold is_word; lia |].
  destruct (ones_sum_spec (words16 bs') 0 (words16_are_words bs'))
    as [Hr' [q' Hq']]; [unfold is_word; lia |].
  rewrite !lnot_land_16 by assumption.
  rewrite !sum_words16 in *.
  assert (Hpow : 1 <= 2 ^ k <= 32768).
  { split.
    - apply (Z.pow_le_mono_r 2 0 k); lia.
    - change 32768 with (2 ^ 15). apply Z.pow_le_mono_r; lia. }
  lia.
Qed.

(** ** Single-bit errors *)

Lemma land_pow2_clear (x k : Z) :
  0 <= k -> Z.testbit x k = false -> Z.land x (2 ^ k) = 0.
Proof.
  intros Hk Hbit. apply Z.bits_inj'. intros n Hn.
  rewrite Z.land_spec, Z.bits_0, Z.pow2_bits_eqb by lia.
  destruct (Z.eqb_spec k n) as [-> | _].
  - rewrite Hbit. reflexivity.
  - apply andb_false_r.
Qed.

(** Flipping one bit of a number adds or subtracts that bit's weight. *)
Lemma lxor_pow2 (v k : Z) :
  0 <= k -> Z.lxor v (2 ^ k) = v + 2 ^ k \/ Z.lxor v (2 ^ k) = v - 2 ^ k.
Proof.
  intros Hk. destruct (Z.testbit v k) eqn:Hbit.
  - right.
    assert (Hclear : Z.land (Z.lxor v (2 ^ k)) (2 ^ k) = 0).
    { apply land_pow2_clear; [exact Hk |].
      rewrite Z.lxor_spec, Hbit, Z.pow2_bits_true by lia. reflexivity. }
    apply Z.add_nocarry_lxor in Hclear.
    rewrite Z.lxor_assoc, Z.lxor_nilpotent, Z.lxor_0_r in Hclear. lia.
  - left. symmetry. apply Z.add_nocarry_lxor.
    apply land_pow2_clear; assumption.
Qed.

Lemma lxor_pow2_byte (v k : Z) :
  0 <= v < 256 -> 0 <= k < 8 -> 0 <= Z.lxor v (2 ^ k) < 256.
Proof.
  intros Hv Hk.
  assert (Hnn : 0 <= Z.lxor v (2 ^ k)).
  { apply Z.lxor_nonneg. split; intros _; [apply Z.pow_nonneg |]; lia. }
  split; [exact Hnn |].
  replace (Z.lxor v (2 ^ k)) with (Z.lxor v (2 ^ k) mod 2 ^ 8).
  - apply Z.mod_pos_bound. lia.
  - apply Z.bits_inj'. intros n Hn.
    destruct (Z.ltb_spec n 8) as [Hlt | Hge].
    + apply Z.mod_pow2_bits_low. lia.
    + rewrite Z.mod_pow2_bits_high by lia.
      rewrite Z.lxor_spec, Z.pow2_bits_false by lia.
      replace v with (v mod 2 ^ 8) by (apply Z.mod_small; exact Hv).
      rewrite Z.mod_pow2_bits_high by lia. reflexivity.
Qed.

Lemma flip_byte_delta (k : nat) (b : byte) :
  (k < 8)%nat ->
  Z_of_byte (flip_byte k b) = Z_of_byte b + 2 ^ Z.of_nat k \/
  Z_of_byte (flip_byte k b) = Z_of_byte b - 2 ^ Z.of_nat k.
Proof.
  intros Hk. unfold flip_byte. rewrite Z_of_byte_of_Z.
  pose proof (Z_of_byte_range b) as Hb.
  rewrite Z.mod_small by (apply lxor_pow2_byte; lia).
  apply lxor_pow2. lia.
Qed.

Lemma flip_bit_length (i : nat) (bs : list byte) :
  length (flip_bit i bs) = length bs.
Proof.
  revert i. induction bs as [| b rest IH]; intros i; simpl; [reflexivity |].
  destruct (i <? 8)%nat; simpl; [reflexivity |]. rewrite IH. reflexivity.
Qed.

Lemma flip_bit_skip (x : byte) (bs : list byte) (i : nat) :
  flip_bit (8 + i) (x :: bs) = x :: flip_bit i bs.
Proof.
  cbn [flip_bit].
  destruct (Nat.ltb_spec (8 + i) 8) as [Hlt | _]; [lia |].
  replace (8 + i - 8)%nat with i by lia. reflexivity.
Qed.

Lemma flip_bit_app_r (pre bs : list byte) (i : nat) :
  flip_bit (8 * length pre + i) (pre ++ bs) = pre ++ flip_bit i bs.
Proof.
  induction pre as [| x pre IH]; [reflexivity |].
  cbn [length app].
  replace (8 * S (length pre) + i)%nat with (8 + (8 * length pre + i))%nat
    by lia.
  rewrite flip_bit_skip, IH. reflexivity.
Qed.

Lemma flip_bit_app_l (bs post : list byte) (i : nat) :
  (i < 8 * length bs)%nat ->
  flip_bit i (bs ++ post) = flip_bit i bs ++ post.
Proof.
  revert i. induction bs as [| b rest IH]; intros i Hi; simpl in *; [lia |].
  destruct (Nat.ltb_spec i 8) as [_ | Hge]; [reflexivity |].
  rewrite IH by lia. reflexivity.
Qed.

(** A flipped bit moves the word sum by a power of two below 2^16. *)
Lemma wsum_flip_bit (bs : list byte) (i : nat) (odd : bool) :
  (i < 8 * length bs)%nat ->
  exists k : Z, 0 <= k < 16 /\
    (wsum odd (flip_bit i bs) = wsum odd bs + 2 ^ k \/
     wsum odd (flip_bit i bs) = wsum odd bs - 2 ^ k).
Proof.
  revert i odd. induction bs as [| b rest IH]; intros i odd Hi;
    simpl in *; [lia |].
  destruct (Nat.ltb_spec i 8) as [Hlt | Hge]; simpl.
  - pose proof (flip_byte_delta i b Hlt) as Hd.
    destruct odd.
    + exists (Z.of_nat i + 8). split; [lia |].
      rewrite Z.pow_add_r by lia. change (2 ^ 8) with 256. lia.
    + exists (Z.of_nat i). split; [lia |]. lia.
  - destruct (IH (i - 8)%nat (negb odd) ltac:(lia)) as (k & Hk & Hd).
    exists k. split; [exact Hk |]. lia.
Qed.

(** The checksum primitive tells a region from the same region with one
    bit flipped. *)
Lemma checksum16_flip_bit (bs : list byte) (i : nat) :
  (i < 8 * length bs)%nat -> checksum16 (flip_bit i bs) <> checksum16 bs.
Proof.
  intros Hi. destruct (wsum_flip_bit bs i false Hi) as (k & Hk & Hd).
  apply (checksum16_differs bs (flip_bit i bs) k Hk Hd).
Qed.

(** ** The outbound processor *)

Lemma udp_hdr_bytes_wire (src_port dst_port n checksum : Z)
    (payload : list byte) :
  udp_hdr_bytes
    {| src_port16 := swap16 (u16 src_port);
       dst_port16 := swap16 (u16 dst_port);
       total_len16 := swap16 (u16 n);
       hdr_checksum16 := checksum |} ++ payload =
  be16 (u16 src_port) ++ be16 (u16 dst_port) ++ be16 (u16 n) ++
  bytes_of_u16 checksum ++ payload.
Proof.
  unfold udp_hdr_bytes.
  cbn [src_port16 dst_port16 total_len16 hdr_checksum16].
  rewrite !bytes_of_swap16, <- !app_assoc. reflexivity.
Qed.

Section Outbound.

Context {udp_handler_t : Type}.
Variables (net_if_ip dst_ip : ip_t) (src_port dst_port : Z).

(** [udp_out] on a buffer with room for the UDP header and for the
    checksum's pseudo-header view. *)
Lemma udp_out_spec (buf : buf_t) :
  (sizeof_udp_hdr_t + sizeof_ip_hdr_t <= data buf)%nat ->
  (data buf <= length (mem buf))%nat ->
  let checksum :=
    checksum16
      (checksum_region net_if_ip dst_ip
         (udp_datagram src_port dst_port 0 (buf_bytes buf))) in
  let tx :=
    mk_buf (take (data buf - sizeof_udp_hdr_t) (mem buf) ++
            udp_datagram src_port dst_port checksum (buf_bytes buf))
           (data buf - sizeof_udp_hdr_t) in
  udp_out (udp_handler_t := udp_handler_t)
    net_if_ip buf src_port dst_ip dst_port =
  (tx, [ip_out tx dst_ip NET_PROTOCOL_UDP]).
Proof.
  unfold sizeof_udp_hdr_t, sizeof_ip_hdr_t. destruct buf as [m p]; simpl.
  intros Hroom Hwf. unfold udp_out, sizeof_udp_hdr_t.
  set (pre := take (p - 8) m). set (udp := buf_bytes (mk_buf m p)).
  assert (Hpre : length pre = (p - 8)%nat)
    by (unfold pre; rewrite length_take; lia).
  assert (Hm : exists old, length old = 8%nat /\ m = pre ++ old ++ udp).
  { exists (take 8 (drop (p - 8) m)). split.
    - rewrite length_take, length_drop. lia.
    - unfold pre, udp, buf_bytes; simpl.
      rewrite <- (take_drop (p - 8) m) at 1. f_equal.
      rewrite <- (take_drop 8 (drop (p - 8) m)) at 1. f_equal.
      rewrite drop_drop. f_equal. lia. }
  destruct Hm as (old & Hold & Hm).
  assert (Hadd : buf_add_header (mk_buf m p) 8 = mk_buf m (length pre)).
  { replace p with (length pre + 8)%nat at 1 by lia.
    apply buf_add_header_at. }
  rewrite Hadd. cbv zeta.
  assert (Hlen : len (mk_buf m (length pre)) = (8 + length udp)%nat).
  { unfold len; simpl. rewrite Hm at 1. rewrite !length_app. lia. }
  rewrite Hlen.
  assert (Hw : forall h : udp_hdr_t,
    buf_write (mk_buf m (length pre)) (udp_hdr_bytes h)
    = mk_buf (pre ++ udp_hdr_bytes h ++ udp) (length pre)).
  { intros h. unfold buf_write; cbn [mem data]. f_equal.
    rewrite Hm at 1. apply mem_write_at. rewrite Hold. reflexivity. }
  assert (Hw' : forall h h' : udp_hdr_t,
    buf_write (mk_buf (pre ++ udp_hdr_bytes h ++ udp) (length pre))
      (udp_hdr_bytes h')
    = mk_buf (pre ++ udp_hdr_bytes h' ++ udp) (length pre)).
  { intros h h'. unfold buf_write; cbn [mem data]. f_equal.
    apply mem_write_at. reflexivity. }
  rewrite Hw.
  set (buf2 := mk_buf (pre ++ udp_hdr_bytes _ ++ udp) (length pre)).
  assert (Hroom2 : (sizeof_ip_hdr_t <= data buf2)%nat)
    by (unfold sizeof_ip_hdr_t, buf2; simpl; lia).
  assert (Hwf2 : (data buf2 <= length (mem buf2))%nat)
    by (unfold buf2; simpl; rewrite length_app; lia).
  pose proof (udp_checksum_value net_if_ip dst_ip buf2 Hroom2 Hwf2) as Hval.
  pose proof (udp_checksum_buf net_if_ip dst_ip buf2 Hroom2 Hwf2) as Hbuf.
  assert (Hbytes2 : buf_bytes buf2 = udp_datagram src_port dst_port 0 udp).
  { unfold buf2, buf_bytes; cbn [mem data]. rewrite drop_app_length.
    apply udp_hdr_bytes_wire. }
  rewrite Hbytes2 in Hval.
  destruct (udp_checksum buf2 net_if_ip dst_ip) as [checksum buf'].
  cbn [fst snd] in Hval, Hbuf. subst buf' checksum.
  cbn [src_port16 dst_port16 total_len16 hdr_checksum16].
  unfold buf2. rewrite Hw', udp_hdr_bytes_wire, Hpre. reflexivity.
Qed.

End Outbound.

(** ** Checksum verification on the content *)

Lemma checksum_matches_bytes (net_if_ip src_ip : ip_t) (buf : buf_t) :
  (sizeof_ip_hdr_t <= data buf)%nat ->
  (data buf <= length (mem buf))%nat ->
  checksum_matches net_if_ip buf src_ip <->
  load16 (buf_bytes buf) off_checksum16 =
  checksum16
    (checksum_region src_ip net_if_ip
       (store16 (buf_bytes buf) off_checksum16 0)).
Proof.
  intros Hroom Hwf. unfold checksum_matches.
  rewrite udp_checksum_value
    by (unfold zero_checksum; cbn [mem data];
        rewrite ?store16_length; assumption).
  rewrite zero_checksum_bytes by exact Hwf.
  unfold buf_bytes. rewrite load16_drop. reflexivity.
Qed.

Lemma checksum_region_length (src_ip dst_ip : ip_t) (udp : list byte) :
  (12 + length udp <= length (checksum_region src_ip dst_ip udp))%nat.
Proof.
  unfold checksum_region. rewrite !length_app, !ip_bytes_length.
  cbn [length be16]. lia.
Qed.

Lemma checksum_region_flip_bit (src_ip dst_ip : ip_t) (udp : list byte)
    (i : nat) :
  (i < 8 * length udp)%nat ->
  checksum_region src_ip dst_ip (flip_bit i udp) =
  flip_bit (8 * 12 + i) (checksum_region src_ip dst_ip udp).
Proof.
  intros Hi. unfold checksum_region. rewrite flip_bit_length.
  set (peso := ip_bytes src_ip ++ _).
  assert (Hpeso : length peso = 12%nat).
  { unfold peso. rewrite !length_app, !ip_bytes_length. reflexivity. }
  rewrite <- Hpeso. rewrite flip_bit_app_r, flip_bit_app_l by exact Hi.
  reflexivity.
Qed.

(** A datagram that verifies no longer verifies after any one of its bits
    is flipped. *)
Lemma flip_bit_breaks_checksum (src_ip dst_ip : ip_t) (udp : list byte)
    (i : nat) :
  (8 <= length udp)%nat -> (i < 8 * length udp)%nat ->
  load16 udp off_checksum16 =
    checksum16 (checksum_region src_ip dst_ip (store16 udp off_checksum16 0)) ->
  load16 (flip_bit i udp) off_checksum16 <>
    checksum16
      (checksum_region src_ip dst_ip
         (store16 (flip_bit i udp) off_checksum16 0)).
Proof.
  unfold off_checksum16. intros Hlen Hi Hok.
  destruct (split_at2 udp 6 ltac:(lia)) as (h6 & c0 & c1 & rest & -> & Hh6).
  rewrite <- Hh6 in Hok |- *. rewrite load16_at, store16_at in Hok.
  rewrite !length_app in Hi. cbn [length] in Hi.
  assert (Hzlen : length (h6 ++ bytes_of_u16 0 ++ rest)
                  = (length h6 + S (S (length rest)))%nat)
    by (rewrite !length_app; reflexivity).
  destruct (Nat.lt_ge_cases i (8 * length h6)) as [Hlow | Hhigh].
  - (* a bit of the ports or of the length field *)
    rewrite flip_bit_app_l by exact Hlow.
    rewrite <- (flip_bit_length i h6).
    rewrite load16_at, store16_at, Hok.
    rewrite <- (flip_bit_app_l h6 (bytes_of_u16 0 ++ rest)) by exact Hlow.
    rewrite checksum_region_flip_bit by lia.
    apply not_eq_sym, checksum16_flip_bit.
    pose proof (checksum_region_length src_ip dst_ip
                  (h6 ++ bytes_of_u16 0 ++ rest)). lia.
  - replace i with (8 * length h6 + (i - 8 * length h6))%nat by lia.
    rewrite flip_bit_app_r.
    destruct (Nat.lt_ge_cases (i - 8 * length h6) 16) as [Hmid | Hpay].
    + (* a bit of the checksum field *)
      change (c0 :: c1 :: rest) with ([c0; c1] ++ rest).
      rewrite flip_bit_app_l by (simpl; lia).
      destruct (wsum_flip_bit [c0; c1] (i - 8 * length h6) false
                  ltac:(simpl; lia)) as (k & Hk & Hd).
      pose proof (flip_bit_length (i - 8 * length h6) [c0; c1]) as Hl.
      destruct (flip_bit (i - 8 * length h6) [c0; c1])
        as [| d0 [| d1 [| ? ?]]]; try discriminate Hl.
      cbn [app]. rewrite load16_at, store16_at, <- Hok.
      cbn [wsum negb] in Hd.
      assert (Hpow : 1 <= 2 ^ k) by (apply (Z.pow_le_mono_r 2 0 k); lia).
      lia.
    + (* a bit of the payload *)
      replace (i - 8 * length h6)%nat
        with (8 * length [c0; c1] + (i - 8 * length h6 - 16))%nat
        by (simpl; lia).
      change (c0 :: c1 :: rest) with ([c0; c1] ++ rest).
      rewrite flip_bit_app_r. cbn [app].
      rewrite load16_at, store16_at, Hok.
      change (bytes_of_u16 0 ++ flip_bit (i - 8 * length h6 - 16) rest)
        with ([x00; x00] ++ flip_bit (i - 8 * length h6 - 16) rest).
      rewrite <- (flip_bit_app_r [x00; x00]), <- flip_bit_app_r.
      change ([x00; x00] ++ rest) with (bytes_of_u16 0 ++ rest).
      rewrite checksum_region_flip_bit by (rewrite Hzlen; simpl; lia).
      apply not_eq_sym, checksum16_flip_bit.
      pose proof (checksum_region_length src_ip dst_ip
                    (h6 ++ bytes_of_u16 0 ++ rest)) as Hrl.
      rewrite Hzlen in Hrl. cbn [length]. lia.
Qed.

Lemma buf_flip_bit_bytes (i : nat) (buf : buf_t) :
  (data buf <= length (mem buf))%nat ->
  buf_bytes (buf_flip_bit i buf) = flip_bit i (buf_bytes buf).
Proof.
  intros Hwf. unfold buf_flip_bit, buf_bytes; cbn [mem data].
  replace (data buf) with (length (take (data buf) (mem buf))) at 1
    by (rewrite length_take; lia).
  apply drop_app_length.
Qed.

Lemma buf_flip_bit_length (i : nat) (buf : buf_t) :
  length (mem (buf_flip_bit i buf)) = length (mem buf).
Proof.
  unfold buf_flip_bit; cbn [mem].
  rewrite length_app, flip_bit_length, <- length_app, take_drop. reflexivity.
Qed.

(** The same on buffers as [udp_in] receives them. *)
Lemma buf_flip_bit_detected (net_if_ip src_ip : ip_t) (buf : buf_t) (i : nat) :
  (sizeof_ip_hdr_t <= data buf)%nat ->
  (sizeof_udp_hdr_t <= len buf)%nat ->
  (i < 8 * len buf)%nat ->
  checksum_matches net_if_ip buf src_ip ->
  ~ checksum_matches net_if_ip (buf_flip_bit i buf) src_ip.
Proof.
  unfold sizeof_udp_hdr_t, len. intros Hroom Hlen Hi Hok.
  assert (Hwf : (data buf <= length (mem buf))%nat) by lia.
  rewrite checksum_matches_bytes in Hok by assumption.
  rewrite checksum_matches_bytes
    by (rewrite ?buf_flip_bit_length; assumption).
  rewrite buf_flip_bit_bytes by exact Hwf.
  assert (Hbytes : length (buf_bytes buf) = (length (mem buf) - data buf)%nat)
    by (unfold buf_bytes; apply length_drop).
  apply flip_bit_breaks_checksum; [lia | lia | exact Hok].
Qed.

(** ** Ports on the wire *)

Lemma swap16_load16 (m : list byte) (p : nat) :
  swap16 (load16 m p) = be16_at m p.
Proof.
  unfold load16, be16_at. rewrite swap16_arith.
  pose proof (Z_of_byte_range (byte_at m p)).
  pose proof (Z_of_byte_range (byte_at m (S p))).
  rewrite (Z.mul_comm 256 (Z_of_byte (byte_at m (S p)))).
  rewrite Z.mod_add, Z.div_add by lia.
  rewrite (Z.mod_small (Z_of_byte (byte_at m p))) by lia.
  rewrite (Z.div_small (Z_of_byte (byte_at m p))) by lia.
  rewrite Z.mod_small by lia. lia.
Qed.

Lemma load16_bytes_of_u16 (pre rest : list byte) (x : Z) :
  0 <= x < 65536 -> load16 (pre ++ bytes_of_u16 x ++ rest) (length pre) = x.
Proof.
  intros Hx. unfold bytes_of_u16. cbn [app].
  rewrite load16_at, !Z_of_byte_of_Z.
  rewrite Z.shiftr_div_pow2 by lia. change (2 ^ 8) with 256.
  rewrite (Z.mod_small (x / 256))
    by (split; [apply Z.div_pos | apply Z.div_lt_upper_bound]; lia).
  pose proof (Z.div_mod x 256 ltac:(lia)). lia.
Qed.

(** A field that reads zero holds two zero bytes. *)
Lemma store16_zero_id (m : list byte) (p : nat) :
  (p + 2 <= length m)%nat -> load16 m p = 0 -> store16 m p 0 = m.
Proof.
  intros Hle Hz.
  destruct (split_at2 m p Hle) as (pre & c0 & c1 & rest & -> & <-).
  rewrite load16_at in Hz. rewrite store16_at, <- Hz, bytes_of_load16.
  reflexivity.
Qed.

Lemma byte_at_app (pre m : list byte) (k : nat) :
  byte_at (pre ++ m) (length pre + k) = byte_at m k.
Proof. unfold byte_at. apply app_nth2_plus. Qed.

Lemma be16_at_app (pre m : list byte) (k : nat) :
  be16_at (pre ++ m) (length pre + k) = be16_at m k.
Proof.
  unfold be16_at. rewrite <- Nat.add_succ_r, !byte_at_app. reflexivity.
Qed.

Lemma be16_value (x : Z) :
  0 <= x < 65536 ->
  256 * Z_of_byte (byte_of_Z (x / 256)) + Z_of_byte (byte_of_Z x) = x.
Proof.
  intros Hx. rewrite !Z_of_byte_of_Z.
  rewrite (Z.mod_small (x / 256))
    by (split; [apply Z.div_pos | apply Z.div_lt_upper_bound]; lia).
  pose proof (Z.div_mod x 256 ltac:(lia)). lia.
Qed.

(** * The properties the specification states *)

(** ** Checksum engine *)

(** C2 (checksum purity): on every buffer with the head-room of one IP
    header in front of its content, for every pair of addresses,
    [udp_checksum] returns the buffer exactly as it received it: same
    memory, same [data], hence the same length, the same content and the
    same head-room. *)
Theorem udp_checksum_pure (buf : buf_t) (src_ip dst_ip : ip_t) :
  (sizeof_ip_hdr_t <= data buf)%nat ->
  (data buf <= length (mem buf))%nat ->
  snd (udp_checksum buf src_ip dst_ip) = buf /\
  len (snd (udp_checksum buf src_ip dst_ip)) = len buf /\
  buf_bytes (snd (udp_checksum buf src_ip dst_ip)) = buf_bytes buf /\
  headroom (snd (udp_checksum buf src_ip dst_ip)) = headroom buf.
Proof.
  intros Hroom Hwf.
  rewrite (udp_checksum_buf src_ip dst_ip buf Hroom Hwf). auto.
Qed.

Lemma udp_checksum_pure_odd_buf :
  ((sizeof_ip_hdr_t <= data odd_buf)%nat /\
   (data odd_buf <= length (mem odd_buf))%nat) /\
  (snd (udp_checksum odd_buf ip_A ip_B) = odd_buf /\
   len (snd (udp_checksum odd_buf ip_A ip_B)) = len odd_buf /\
   buf_bytes (snd (udp_checksum odd_buf ip_A ip_B)) = buf_bytes odd_buf /\
   headroom (snd (udp_checksum odd_buf ip_A ip_B)) = headroom odd_buf).
Proof.
  split.
  - split; vm_compute; lia.
  - apply (udp_checksum_pure odd_buf ip_A ip_B); vm_compute; lia.
Defined.

(** C8 (no zero-checksum sentinel): [udp_checksum] returns what the
    checksum primitive computes over the pseudo-header view, unchanged; a
    datagram whose checksum comes out as 0x0000 gets 0x0000 from
    [udp_checksum], and [udp_out] transmits 0x0000 in its checksum field. *)
Theorem udp_checksum_is_raw_checksum16 :
  (forall (buf : buf_t) (src_ip dst_ip : ip_t),
     (sizeof_ip_hdr_t <= data buf)%nat ->
     (data buf <= length (mem buf))%nat ->
     fst (udp_checksum buf src_ip dst_ip) =
     checksum16 (checksum_region src_ip dst_ip (buf_bytes buf))) /\
  (let zeroed :=
     mk_buf (sample_room ++ udp_datagram 12345 53 0 zero_sum_payload) 40 in
   let tx :=
     fst (udp_send (udp_handler_t := app_handler)
            ip_A sample_room zero_sum_payload 2 12345 ip_B 53) in
   fst (udp_checksum zeroed ip_A ip_B) = 0 /\
   buf_bytes tx = udp_datagram 12345 53 0 zero_sum_payload /\
   mem_read (buf_bytes tx) off_checksum16 2 = [x00; x00]).
Proof.
  split.
  - intros buf src_ip dst_ip. apply udp_checksum_value.
  - vm_compute. auto.
Qed.

(** ** Port registry *)

(** C6 (registry round trips): after a successful [udp_open] of a port the
    lookup of that port yields the handler; after [udp_close] it yields
    none; [udp_close] of a port without an entry leaves the table as it
    is; [udp_open] of a port that has a handler succeeds and replaces it;
    a failed [udp_open] leaves the table as it is. *)
Theorem registry_round_trips {udp_handler_t : Type}
    (udp_table : map_t udp_handler_t) (port : Z)
    (handler previous : udp_handler_t) :
  (fst (udp_open udp_table port handler) = 0 ->
   map_get (snd (udp_open udp_table port handler)) (u16 port)
   = Some handler) /\
  map_get (udp_close udp_table port) (u16 port) = None /\
  (map_get udp_table (u16 port) = None ->
   udp_close udp_table port = udp_table) /\
  (map_get udp_table (u16 port) = Some previous ->
   fst (udp_open udp_table port handler) = 0 /\
   map_get (snd (udp_open udp_table port handler)) (u16 port)
   = Some handler) /\
  (fst (udp_open udp_table port handler) <> 0 ->
   snd (udp_open udp_table port handler) = udp_table).
Proof.
  unfold udp_open, udp_close, map_set, map_delete, map_get.
  destruct udp_table as [m cap]; cbn [entries capacity].
  split; [| split; [| split; [| split]]].
  - destruct (m !! u16 port); [| destruct (size m <? cap)%nat];
      cbn [fst snd entries]; intros Hret;
      try (apply lookup_insert_eq); discriminate Hret.
  - apply lookup_delete_eq.
  - intros Hnone. rewrite delete_id by exact Hnone. reflexivity.
  - intros Hsome. rewrite Hsome. cbn [fst snd entries].
    split; [reflexivity | apply lookup_insert_eq].
  - destruct (m !! u16 port); [| destruct (size m <? cap)%nat];
      cbn [fst snd]; intros Hret; [contradiction | contradiction |].
    reflexivity.
Qed.

(** ** Inbound processor *)

Section InboundClaims.

Context {udp_handler_t : Type}.
Variables (udp_table : map_t udp_handler_t) (net_if_ip src_ip : ip_t).

(** C4 (silent drop): a buffer shorter than the UDP header, or one whose
    recomputed checksum differs from the checksum it carries, makes
    [udp_in] return without a single call: no handler, no unreachable
    notification, no packet. *)
Theorem udp_in_silent_drop (buf : buf_t) :
  (len buf < sizeof_udp_hdr_t)%nat \/
  ~ checksum_matches net_if_ip buf src_ip ->
  snd (udp_in udp_table net_if_ip buf src_ip) = [].
Proof.
  intros Hbad. unfold udp_in.
  destruct (Nat.ltb_spec (len buf) sizeof_udp_hdr_t) as [Hlt | Hge];
    [reflexivity |].
  destruct Hbad as [Hshort | Hsum]; [lia |].
  unfold checksum_matches, zero_checksum in Hsum.
  destruct (udp_checksum _ src_ip net_if_ip) as [recomputed buf'].
  cbn [fst] in Hsum.
  destruct (Z.eqb_spec (load16 (mem buf) (data buf + off_checksum16))
              recomputed) as [Heq | _]; [contradiction |].
  reflexivity.
Qed.

(** C5 (unreachable port): a datagram that holds a header, verifies and
    is addressed to a port without a handler makes [udp_in] push the IP
    header back in front of the buffer and ask for exactly one
    port-unreachable notification to the sender, carrying the bytes of
    that header followed by the UDP bytes; no handler is called. *)
Theorem udp_in_port_unreachable (buf : buf_t) :
  (sizeof_ip_hdr_t <= data buf)%nat ->
  (sizeof_udp_hdr_t <= len buf)%nat ->
  checksum_matches net_if_ip buf src_ip ->
  map_get udp_table (wire_dst_port buf) = None ->
  let notified := buf_add_header buf sizeof_ip_hdr_t in
  udp_in udp_table net_if_ip buf src_ip =
    (notified, [icmp_unreachable notified src_ip ICMP_CODE_PORT_UNREACH]) /\
  buf_bytes notified =
    drop (data buf - sizeof_ip_hdr_t) (headroom buf) ++ buf_bytes buf /\
  len notified = (sizeof_ip_hdr_t + len buf)%nat.
Proof.
  intros Hroom Hlen Hsum Hport notified.
  rewrite udp_in_cases by assumption.
  unfold checksum_matches in Hsum. rewrite <- Hsum, Z.eqb_refl. cbn [negb].
  rewrite swap16_load16. fold (wire_dst_port buf). rewrite Hport.
  split; [reflexivity |].
  unfold notified, buf_add_header, sizeof_ip_hdr_t in *.
  destruct (Nat.leb_spec 20 (data buf)) as [_ | Hlt]; [| lia].
  unfold buf_bytes, headroom, len, sizeof_udp_hdr_t in *; cbn [mem data].
  split; [| lia].
  rewrite <- (take_drop (data buf) (mem buf)) at 1.
  rewrite drop_app_le by (rewrite length_take; lia). reflexivity.
Qed.

(** C10 (length field ignored on receive): a datagram that holds a
    header, verifies and is addressed to a port with a handler is
    delivered with everything that follows the 8 header bytes as payload
    and the buffer length minus 8 as payload length; the header's length
    field is not among the conditions and does not enter the result. *)
Theorem udp_in_delivers_buffer_length (buf : buf_t)
    (handler : udp_handler_t) :
  (sizeof_ip_hdr_t <= data buf)%nat ->
  (sizeof_udp_hdr_t <= len buf)%nat ->
  checksum_matches net_if_ip buf src_ip ->
  map_get udp_table (wire_dst_port buf) = Some handler ->
  snd (udp_in udp_table net_if_ip buf src_ip) =
  [handler_call handler (drop sizeof_udp_hdr_t (buf_bytes buf))
     (len buf - sizeof_udp_hdr_t) src_ip
     (load16 (mem buf) (data buf + off_src_port16))].
Proof.
  intros Hroom Hlen Hsum Hport.
  rewrite udp_in_cases by assumption.
  unfold checksum_matches in Hsum. rewrite <- Hsum, Z.eqb_refl. cbn [negb].
  rewrite swap16_load16. fold (wire_dst_port buf). rewrite Hport.
  reflexivity.
Qed.

(** C9, as amended (no atomicity on checksum failure): when a buffer that
    holds a header, with the head-room of an IP header in front, fails
    the checksum verification, [udp_in] returns it with the checksum
    field zeroed and nothing else changed; the buffer is back in its
    original state exactly when the checksum it carried was zero. *)
Theorem udp_in_checksum_failure_zeroes_field (buf : buf_t) :
  (sizeof_ip_hdr_t <= data buf)%nat ->
  (sizeof_udp_hdr_t <= len buf)%nat ->
  ~ checksum_matches net_if_ip buf src_ip ->
  udp_in udp_table net_if_ip buf src_ip = (zero_checksum buf, []) /\
  load16 (mem (zero_checksum buf)) (data buf + off_checksum16) = 0 /\
  (zero_checksum buf = buf <->
   load16 (mem buf) (data buf + off_checksum16) = 0).
Proof.
  intros Hroom Hlen Hsum.
  assert (Hfield : (data buf + off_checksum16 + 2 <= length (mem buf))%nat)
    by (unfold len, sizeof_udp_hdr_t, off_checksum16 in *; lia).
  assert (Hzero : load16 (mem (zero_checksum buf))
                    (data buf + off_checksum16) = 0).
  { unfold zero_checksum; cbn [mem].
    apply load16_store16; [exact Hfield | lia]. }
  split; [| split].
  - rewrite udp_in_cases by assumption.
    unfold checksum_matches in Hsum.
    destruct (Z.eqb_spec (load16 (mem buf) (data buf + off_checksum16))
                (fst (udp_checksum (zero_checksum buf) src_ip net_if_ip)))
      as [Heq | _]; [contradiction | reflexivity].
  - exact Hzero.
  - split.
    + intros Hsame. rewrite Hsame in Hzero. exact Hzero.
    + intros Hz. unfold zero_checksum.
      rewrite store16_zero_id by assumption.
      destruct buf; reflexivity.
Qed.

End InboundClaims.

Lemma udp_in_silent_drop_short_buf :
  ((len short_buf < sizeof_udp_hdr_t)%nat \/
   ~ checksum_matches ip_B short_buf ip_A) /\
  snd (udp_in dns_table ip_B short_buf ip_A) = [].
Proof.
  assert (Hshort : (len short_buf < sizeof_udp_hdr_t)%nat)
    by (vm_compute; lia).
  split.
  - left. exact Hshort.
  - apply (udp_in_silent_drop dns_table ip_B ip_A short_buf).
    left. exact Hshort.
Defined.

Lemma udp_in_port_unreachable_sample_tx :
  ((sizeof_ip_hdr_t <= data sample_tx)%nat /\
   (sizeof_udp_hdr_t <= len sample_tx)%nat /\
   checksum_matches ip_B sample_tx ip_A /\
   map_get empty_table (wire_dst_port sample_tx) = None) /\
  (udp_in empty_table ip_B sample_tx ip_A =
     (buf_add_header sample_tx sizeof_ip_hdr_t,
      [icmp_unreachable (buf_add_header sample_tx sizeof_ip_hdr_t) ip_A
         ICMP_CODE_PORT_UNREACH]) /\
   buf_bytes (buf_add_header sample_tx sizeof_ip_hdr_t) =
     drop (data sample_tx - sizeof_ip_hdr_t) (headroom sample_tx) ++
     buf_bytes sample_tx /\
   len (buf_add_header sample_tx sizeof_ip_hdr_t) =
     (sizeof_ip_hdr_t + len sample_tx)%nat).
Proof.
  assert (H1 : (sizeof_ip_hdr_t <= data sample_tx)%nat) by (vm_compute; lia).
  assert (H2 : (sizeof_udp_hdr_t <= len sample_tx)%nat) by (vm_compute; lia).
  assert (H3 : checksum_matches ip_B sample_tx ip_A)
    by (vm_compute; reflexivity).
  assert (H4 : map_get empty_table (wire_dst_port sample_tx) = None)
    by (vm_compute; reflexivity).
  split.
  - repeat split; assumption.
  - exact (udp_in_port_unreachable empty_table ip_B ip_A sample_tx
             H1 H2 H3 H4).
Defined.

Lemma udp_in_delivers_bogus_len_buf :
  ((sizeof_ip_hdr_t <= data bogus_len_buf)%nat /\
   (sizeof_udp_hdr_t <= len bogus_len_buf)%nat /\
   checksum_matches ip_B bogus_len_buf ip_A /\
   map_get dns_table (wire_dst_port bogus_len_buf) = Some dns_handler /\
   wire_total_len bogus_len_buf = 65535 /\ len bogus_len_buf = 10%nat) /\
  snd (udp_in dns_table ip_B bogus_len_buf ip_A) =
  [handler_call dns_handler (drop sizeof_udp_hdr_t (buf_bytes bogus_len_buf))
     (len bogus_len_buf - sizeof_udp_hdr_t) ip_A
     (load16 (mem bogus_len_buf) (data bogus_len_buf + off_src_port16))].
Proof.
  assert (H1 : (sizeof_ip_hdr_t <= data bogus_len_buf)%nat)
    by (vm_compute; lia).
  assert (H2 : (sizeof_udp_hdr_t <= len bogus_len_buf)%nat)
    by (vm_compute; lia).
  assert (H3 : checksum_matches ip_B bogus_len_buf ip_A)
    by (vm_compute; reflexivity).
  assert (H4 : map_get dns_table (wire_dst_port bogus_len_buf)
               = Some dns_handler) by (vm_compute; reflexivity).
  split.
  - repeat split; try assumption; vm_compute; reflexivity.
  - exact (udp_in_delivers_buffer_length dns_table ip_B ip_A bogus_len_buf
             dns_handler H1 H2 H3 H4).
Defined.

Lemma zero_field_buf_fails : ~ checksum_matches ip_B zero_field_buf ip_A.
Proof. vm_compute. discriminate. Qed.

(** C9, as stated, fails on a datagram that carries a zero checksum and does
    not verify: [udp_in] drops it and returns the buffer byte for byte as it
    was. *)
Lemma udp_in_drop_leaves_zero_field_buf :
  (sizeof_udp_hdr_t <= len zero_field_buf)%nat /\
  ~ checksum_matches ip_B zero_field_buf ip_A /\
  udp_in empty_table ip_B zero_field_buf ip_A = (zero_field_buf, []).
Proof.
  split; [vm_compute; lia |]. split; [exact zero_field_buf_fails |].
  vm_compute. reflexivity.
Qed.

Lemma corrupt_buf_fails : ~ checksum_matches ip_B corrupt_buf ip_A.
Proof. vm_compute. discriminate. Qed.

Lemma corrupt_buf_field_differs : zero_checksum corrupt_buf <> corrupt_buf.
Proof.
  intros E.
  apply (f_equal (fun b => load16 (mem b) (data b + off_checksum16))) in E.
  vm_compute in E. discriminate E.
Qed.

Lemma udp_in_checksum_failure_corrupt_buf :
  ((sizeof_ip_hdr_t <= data corrupt_buf)%nat /\
   (sizeof_udp_hdr_t <= len corrupt_buf)%nat /\
   ~ checksum_matches ip_B corrupt_buf ip_A /\
   load16 (mem corrupt_buf) (data corrupt_buf + off_checksum16) = 44515 /\
   zero_checksum corrupt_buf <> corrupt_buf) /\
  (udp_in dns_table ip_B corrupt_buf ip_A
   = (zero_checksum corrupt_buf, []) /\
   load16 (mem (zero_checksum corrupt_buf))
     (data corrupt_buf + off_checksum16) = 0 /\
   (zero_checksum corrupt_buf = corrupt_buf <->
    load16 (mem corrupt_buf) (data corrupt_buf + off_checksum16) = 0)).
Proof.
  assert (H1 : (sizeof_ip_hdr_t <= data corrupt_buf)%nat)
    by (vm_compute; lia).
  assert (H2 : (sizeof_udp_hdr_t <= len corrupt_buf)%nat)
    by (vm_compute; lia).
  split.
  - repeat split; try assumption.
    + exact corrupt_buf_fails.
    + exact corrupt_buf_field_differs.
  - exact (udp_in_checksum_failure_zeroes_field dns_table ip_B ip_A
             corrupt_buf H1 H2 corrupt_buf_fails).
Defined.

(** ** Outbound processor *)

Section OutboundClaims.

Context {udp_handler_t : Type}.
Variables (net_if_ip dst_ip : ip_t) (src_port dst_port : Z).

(** C7, as amended (outbound construction): on a buffer with room for the
    UDP header and the checksum's view, [udp_out] puts exactly 8 bytes in
    front of the payload: the source port, the destination port and 8 plus
    the payload length reduced modulo 2^16, each big-endian (the length
    field is 8 plus the payload length whenever that number is below
    65536), and the checksum, which is what
    [udp_checksum] returns for the datagram with a zero checksum field,
    the local address as source and the given address as destination.
    The head-room in front is left alone, and the one call made is
    [ip_out] with that buffer, the destination address and the UDP
    protocol number. *)
Theorem udp_out_builds_datagram (buf : buf_t) :
  (sizeof_udp_hdr_t + sizeof_ip_hdr_t <= data buf)%nat ->
  (data buf <= length (mem buf))%nat ->
  let zeroed :=
    mk_buf (take (data buf - sizeof_udp_hdr_t) (mem buf) ++
            udp_datagram src_port dst_port 0 (buf_bytes buf))
           (data buf - sizeof_udp_hdr_t) in
  let checksum := fst (udp_checksum zeroed net_if_ip dst_ip) in
  let tx :=
    fst (udp_out (udp_handler_t := udp_handler_t)
           net_if_ip buf src_port dst_ip dst_port) in
  snd (udp_out (udp_handler_t := udp_handler_t)
         net_if_ip buf src_port dst_ip dst_port)
    = [ip_out tx dst_ip NET_PROTOCOL_UDP] /\
  buf_bytes tx = udp_datagram src_port dst_port checksum (buf_bytes buf) /\
  len tx = (sizeof_udp_hdr_t + len buf)%nat /\
  headroom tx = take (data buf - sizeof_udp_hdr_t) (mem buf) /\
  wire_src_port tx = u16 src_port /\
  wire_dst_port tx = u16 dst_port /\
  wire_total_len tx = u16 (Z.of_nat (sizeof_udp_hdr_t + len buf)) /\
  (Z.of_nat (sizeof_udp_hdr_t + len buf) < 65536 ->
   wire_total_len tx = Z.of_nat (sizeof_udp_hdr_t + len buf)) /\
  load16 (buf_bytes tx) off_checksum16 = checksum /\
  checksum =
    checksum16
      (checksum_region net_if_ip dst_ip
         (udp_datagram src_port dst_port 0 (buf_bytes buf))).
Proof.
  intros Hroom Hwf zeroed checksum tx.
  pose proof (udp_out_spec (udp_handler_t := udp_handler_t)
                net_if_ip dst_ip src_port dst_port buf Hroom Hwf) as Hout.
  cbv zeta in Hout.
  unfold sizeof_udp_hdr_t, sizeof_ip_hdr_t in *.
  set (pre := take (data buf - 8) (mem buf)) in *.
  assert (Hpre : length pre = (data buf - 8)%nat)
    by (unfold pre; rewrite length_take; lia).
  assert (Hlen : length (buf_bytes buf) = len buf)
    by (unfold buf_bytes, len; apply length_drop).
  assert (Hsum : checksum =
                 checksum16
                   (checksum_region net_if_ip dst_ip
                      (udp_datagram src_port dst_port 0 (buf_bytes buf)))).
  { unfold checksum. rewrite udp_checksum_value.
    - unfold zeroed, buf_bytes at 1; cbn [mem data].
      rewrite <- Hpre, drop_app_length. reflexivity.
    - unfold zeroed, sizeof_ip_hdr_t; cbn [data]. lia.
    - unfold zeroed; cbn [mem data]. rewrite length_app. lia. }
  rewrite <- Hsum in Hout.
  unfold tx. rewrite Hout. cbn [fst snd].
  assert (Hbytes : buf_bytes (mk_buf (pre ++ udp_datagram src_port dst_port
                                              checksum (buf_bytes buf))
                                     (data buf - 8))
                   = udp_datagram src_port dst_port checksum (buf_bytes buf)).
  { unfold buf_bytes at 1; cbn [mem data].
    rewrite <- Hpre. apply drop_app_length. }
  pose proof (checksum16_range
                (checksum_region net_if_ip dst_ip
                   (udp_datagram src_port dst_port 0 (buf_bytes buf))))
    as Hrange.
  rewrite <- Hsum in Hrange.
  split; [reflexivity |]. split; [exact Hbytes |].
  split.
  { unfold len; cbn [mem data]. unfold udp_datagram.
    rewrite !length_app. cbn [length be16 bytes_of_u16].
    unfold len in Hlen. lia. }
  split.
  { unfold headroom; cbn [mem data]. rewrite <- Hpre.
    apply take_app_length. }
  assert (Hfield : forall (k : nat) (x : Z),
    be16_at (udp_datagram src_port dst_port checksum (buf_bytes buf)) k
      = 256 * Z_of_byte (byte_of_Z (u16 x / 256))
        + Z_of_byte (byte_of_Z (u16 x)) ->
    be16_at (pre ++ udp_datagram src_port dst_port checksum (buf_bytes buf))
      (data buf - 8 + k) = u16 x).
  { intros k x Hk. rewrite <- Hpre, be16_at_app, Hk.
    apply be16_value, u16_range. }
  unfold wire_src_port, wire_dst_port, wire_total_len; cbn [mem data].
  split; [apply Hfield; reflexivity |].
  split; [apply Hfield; reflexivity |].
  split; [rewrite <- Hlen; apply Hfield; reflexivity |].
  split.
  { intros Hfit.
    transitivity (u16 (Z.of_nat (8 + len buf)));
      [rewrite <- Hlen; apply Hfield; reflexivity |].
    apply Z.mod_small. lia. }
  split; [| exact Hsum].
  rewrite Hbytes.
  apply (load16_bytes_of_u16
           [byte_of_Z (u16 src_port / 256); byte_of_Z (u16 src_port);
            byte_of_Z (u16 dst_port / 256); byte_of_Z (u16 dst_port);
            byte_of_Z (u16 (Z.of_nat (8 + len buf)) / 256);
            byte_of_Z (u16 (Z.of_nat (8 + len buf)))]
           (buf_bytes buf) checksum Hrange).
Qed.

End OutboundClaims.

Lemma udp_out_builds_sample_datagram :
  let buf := mk_buf (sample_room ++ payload_hi) 40 in
  let zeroed :=
    mk_buf (take (data buf - sizeof_udp_hdr_t) (mem buf) ++
            udp_datagram 12345 53 0 (buf_bytes buf))
           (data buf - sizeof_udp_hdr_t) in
  let checksum := fst (udp_checksum zeroed ip_A ip_B) in
  let tx :=
    fst (udp_out (udp_handler_t := app_handler) ip_A buf 12345 ip_B 53) in
  ((sizeof_udp_hdr_t + sizeof_ip_hdr_t <= data buf)%nat /\
   (data buf <= length (mem buf))%nat) /\
  (snd (udp_out (udp_handler_t := app_handler) ip_A buf 12345 ip_B 53)
     = [ip_out tx ip_B NET_PROTOCOL_UDP] /\
   buf_bytes tx = udp_datagram 12345 53 checksum (buf_bytes buf) /\
   len tx = (sizeof_udp_hdr_t + len buf)%nat /\
   headroom tx = take (data buf - sizeof_udp_hdr_t) (mem buf) /\
   wire_src_port tx = u16 12345 /\
   wire_dst_port tx = u16 53 /\
   wire_total_len tx = u16 (Z.of_nat (sizeof_udp_hdr_t + len buf)) /\
   (Z.of_nat (sizeof_udp_hdr_t + len buf) < 65536 ->
    wire_total_len tx = Z.of_nat (sizeof_udp_hdr_t + len buf)) /\
   load16 (buf_bytes tx) off_checksum16 = checksum /\
   checksum =
     checksum16
       (checksum_region ip_A ip_B (udp_datagram 12345 53 0 (buf_bytes buf)))).
Proof.
  split.
  - split; vm_compute; lia.
  - apply (udp_out_builds_datagram (udp_handler_t := app_handler)
             ip_A ip_B 12345 53 (mk_buf (sample_room ++ payload_hi) 40));
      vm_compute; lia.
Defined.

(** ** Round trip *)

Lemma udp_datagram_checksum_field (src_port dst_port checksum : Z)
    (payload : list byte) :
  0 <= checksum < 65536 ->
  load16 (udp_datagram src_port dst_port checksum payload) off_checksum16
  = checksum.
Proof.
  intros Hrange.
  apply (load16_bytes_of_u16
           (be16 (u16 src_port) ++ be16 (u16 dst_port) ++
            be16 (u16 (Z.of_nat (sizeof_udp_hdr_t + length payload))))
           payload checksum Hrange).
Qed.

Lemma udp_datagram_zero_field (src_port dst_port checksum : Z)
    (payload : list byte) :
  store16 (udp_datagram src_port dst_port checksum payload) off_checksum16 0
  = udp_datagram src_port dst_port 0 payload.
Proof.
  apply (store16_at
           (be16 (u16 src_port) ++ be16 (u16 dst_port) ++
            be16 (u16 (Z.of_nat (sizeof_udp_hdr_t + length payload))))
           (byte_of_Z checksum) (byte_of_Z (Z.shiftr checksum 8))
           payload 0).
Qed.

Section RoundTrip.

Context {udp_handler_t : Type}.
Variables (udp_table : map_t udp_handler_t).
Variables (ip_src ip_dst : ip_t) (src_port dst_port : Z).

(** The buffer [udp_out] hands to [ip_out] is one [udp_in] accepts. *)
Lemma udp_out_verifies (buf : buf_t) :
  (sizeof_udp_hdr_t + sizeof_ip_hdr_t <= data buf)%nat ->
  (data buf <= length (mem buf))%nat ->
  let tx :=
    fst (udp_out (udp_handler_t := udp_handler_t)
           ip_src buf src_port ip_dst dst_port) in
  (sizeof_ip_hdr_t <= data tx)%nat /\
  (sizeof_udp_hdr_t <= len tx)%nat /\
  checksum_matches ip_dst tx ip_src.
Proof.
  intros Hroom Hwf tx. unfold tx.
  rewrite (udp_out_spec (udp_handler_t := udp_handler_t)
             ip_src ip_dst src_port dst_port buf Hroom Hwf).
  cbn [fst]. unfold sizeof_udp_hdr_t, sizeof_ip_hdr_t in *.
  set (checksum := checksum16 _).
  set (pre := take (data buf - 8) (mem buf)).
  assert (Hpre : length pre = (data buf - 8)%nat)
    by (unfold pre; rewrite length_take; lia).
  assert (Hdg : forall c : Z,
    (8 <= length (udp_datagram src_port dst_port c (buf_bytes buf)))%nat).
  { intros c. unfold udp_datagram. rewrite !length_app.
    cbn [length be16 bytes_of_u16]. lia. }
  split; [cbn [data]; lia |]. split.
  { unfold len; cbn [mem data]. rewrite length_app.
    specialize (Hdg checksum). lia. }
  apply checksum_matches_bytes.
  - unfold sizeof_ip_hdr_t; cbn [data]. lia.
  - cbn [mem data]. rewrite length_app. lia.
  - unfold buf_bytes at 1 3; cbn [mem data].
    rewrite <- Hpre, drop_app_length.
    rewrite udp_datagram_zero_field, udp_datagram_checksum_field.
    + reflexivity.
    + apply checksum16_range.
Qed.

(** C3 (checksum round trip): for every payload, pair of addresses and
    pair of ports, the buffer [udp_out] builds passes the checksum
    verification of [udp_in] at the destination, which then dispatches
    it; with any single bit of the transmitted bytes flipped it fails
    the verification and [udp_in] drops it. *)
Theorem udp_checksum_round_trip (buf : buf_t) :
  (sizeof_udp_hdr_t + sizeof_ip_hdr_t <= data buf)%nat ->
  (data buf <= length (mem buf))%nat ->
  let tx :=
    fst (udp_out (udp_handler_t := udp_handler_t)
           ip_src buf src_port ip_dst dst_port) in
  (checksum_matches ip_dst tx ip_src /\
   snd (udp_in udp_table ip_dst tx ip_src) <> []) /\
  (forall i : nat,
     (i < 8 * len tx)%nat ->
     ~ checksum_matches ip_dst (buf_flip_bit i tx) ip_src /\
     snd (udp_in udp_table ip_dst (buf_flip_bit i tx) ip_src) = []).
Proof.
  intros Hroom Hwf tx.
  destruct (udp_out_verifies buf Hroom Hwf) as (Hroom' & Hlen' & Hok).
  fold tx in Hroom', Hlen', Hok.
  split; [split; [exact Hok |] |].
  - rewrite udp_in_cases by assumption.
    unfold checksum_matches in Hok. rewrite <- Hok, Z.eqb_refl. cbn [negb].
    destruct (map_get udp_table _); discriminate.
  - intros i Hi.
    pose proof (buf_flip_bit_detected ip_dst ip_src tx i
                  Hroom' Hlen' Hi Hok) as Hbad.
    split; [exact Hbad |].
    unfold udp_in.
    destruct (Nat.ltb_spec (len (buf_flip_bit i tx)) sizeof_udp_hdr_t)
      as [_ | _]; [reflexivity |].
    unfold checksum_matches, zero_checksum in Hbad.
    destruct (udp_checksum _ ip_src ip_dst) as [recomputed buf'].
    cbn [fst] in Hbad.
    destruct (Z.eqb_spec
                (load16 (mem (buf_flip_bit i tx))
                   (data (buf_flip_bit i tx) + off_checksum16))
                recomputed) as [Heq | _]; [contradiction |].
    reflexivity.
Qed.

End RoundTrip.

Lemma udp_checksum_round_trip_sample :
  let buf := mk_buf (sample_room ++ payload_hi) 40 in
  let tx :=
    fst (udp_out (udp_handler_t := app_handler) ip_A buf 12345 ip_B 53) in
  ((sizeof_udp_hdr_t + sizeof_ip_hdr_t <= data buf)%nat /\
   (data buf <= length (mem buf))%nat) /\
  ((checksum_matches ip_B tx ip_A /\
    snd (udp_in dns_table ip_B tx ip_A) <> []) /\
   (forall i : nat,
      (i < 8 * len tx)%nat ->
      ~ checksum_matches ip_B (buf_flip_bit i tx) ip_A /\
      snd (udp_in dns_table ip_B (buf_flip_bit i tx) ip_A) = [])).
Proof.
  split.
  - split; vm_compute; lia.
  - apply (udp_checksum_round_trip dns_table ip_A ip_B 12345 53
             (mk_buf (sample_room ++ payload_hi) 40));
      vm_compute; lia.
Defined.

(** ** End to end *)

(** C1 (end-to-end delivery), evaluated: port 53 is opened with a handler
    on B; A sends "hi" from port 12345 to port 53 of B; [udp_in] on B calls
    the handler once with payload "hi", length 2 and sender address A, and
    with 14640 as the source port: the two bytes of 12345 exchanged. *)
Theorem udp_end_to_end_src_port :
  fst (udp_open empty_table 53 dns_handler) = 0 /\
  snd (udp_in dns_table ip_B sample_tx ip_A) =
    [handler_call dns_handler payload_hi 2 ip_A 14640] /\
  wire_src_port sample_tx = 12345 /\
  swap16 12345 = 14640.
Proof. vm_compute. auto. Qed.

(** * Further properties of the code *)

(** ** Ports as the handler sees them *)

Lemma swap16_involutive (x : Z) : 0 <= x < 65536 -> swap16 (swap16 x) = x.
Proof.
  intros Hx. rewrite (swap16_arith (swap16 x)), (swap16_arith x).
  pose proof (Z.mod_pos_bound x 256 ltac:(lia)) as Hlo.
  assert (Hhi : 0 <= x / 256 < 256)
    by (split; [apply Z.div_pos | apply Z.div_lt_upper_bound]; lia).
  rewrite (Z.mod_small (x / 256)) by exact Hhi.
  set (lo := x mod 256) in *. set (hi := x / 256) in *.
  assert (Hm : (lo * 256 + hi) mod 256 = hi)
    by (rewrite Z.add_comm, Z.mod_add, Z.mod_small; lia).
  assert (Hd : (lo * 256 + hi) / 256 = lo)
    by (rewrite Z.add_comm, Z.div_add, Z.div_small; lia).
  rewrite Hm, Hd, (Z.mod_small lo) by lia.
  pose proof (Z.div_mod x 256 ltac:(lia)). unfold lo, hi. lia.
Qed.

Lemma load16_is_swapped (m : list byte) (p : nat) :
  load16 m p = swap16 (be16_at m p).
Proof.
  rewrite <- swap16_load16. symmetry. apply swap16_involutive.
  unfold load16.
  pose proof (Z_of_byte_range (byte_at m p)).
  pose proof (Z_of_byte_range (byte_at m (S p))). lia.
Qed.

Lemma Z_of_byte_inj (a b : byte) : Z_of_byte a = Z_of_byte b -> a = b.
Proof.
  intros E. rewrite <- (byte_of_Z_of_byte a), <- (byte_of_Z_of_byte b), E.
  reflexivity.
Qed.

(** ** The registry seen from [udp_in] *)

Lemma map_get_map_set_other {udp_handler_t : Type}
    (m : map_t udp_handler_t) (key key' : Z) (value : udp_handler_t) :
  key <> key' -> map_get (snd (map_set m key value)) key' = map_get m key'.
Proof.
  intros Hne. unfold map_set, map_get.
  destruct (entries m !! key); [| destruct (size (entries m) <? capacity m)%nat];
    cbn [snd entries]; try reflexivity; apply lookup_insert_ne; exact Hne.
Qed.

Lemma map_get_map_delete_other {udp_handler_t : Type}
    (m : map_t udp_handler_t) (key key' : Z) :
  key <> key' -> map_get (map_delete m key) key' = map_get m key'.
Proof.
  intros Hne. unfold map_delete, map_get; cbn [entries].
  apply lookup_delete_ne. exact Hne.
Qed.

Section MoreInbound.

Context {udp_handler_t : Type}.
Variables (udp_table : map_t udp_handler_t) (net_if_ip src_ip : ip_t).

(** X1 (dispatch is sound): whatever the buffer holds, [udp_in] makes at
    most one call; and on a buffer with the head-room of an IP header every
    call is justified: a handler only for a datagram that verifies, and
    only the handler registered under its destination port, with the bytes
    behind the header and their number; an unreachable notification only
    for a datagram that verifies and has no handler; never an [ip_out]. *)
Theorem udp_in_calls_justified (buf : buf_t) :
  (length (snd (udp_in udp_table net_if_ip buf src_ip)) <= 1)%nat /\
  ((sizeof_ip_hdr_t <= data buf)%nat ->
   Forall (call_justified udp_table net_if_ip buf src_ip)
     (snd (udp_in udp_table net_if_ip buf src_ip))).
Proof.
  split.
  - unfold udp_in.
    destruct (len buf <? sizeof_udp_hdr_t)%nat; [cbn [snd length]; lia |].
    cbv zeta.
    destruct (udp_checksum _ src_ip net_if_ip) as [recomputed buf'].
    destruct (negb _); [cbn [snd length]; lia |].
    destruct (map_get udp_table _); cbn [snd length]; lia.
  - intros Hroom.
    destruct (Nat.lt_ge_cases (len buf) sizeof_udp_hdr_t) as [Hshort | Hlen].
    + unfold udp_in.
      destruct (Nat.ltb_spec (len buf) sizeof_udp_hdr_t) as [_ | Hge];
        [| lia].
      constructor.
    + rewrite udp_in_cases by assumption.
      destruct (Z.eqb_spec (load16 (mem buf) (data buf + off_checksum16))
                  (fst (udp_checksum (zero_checksum buf) src_ip net_if_ip)))
        as [Hsum | _]; cbn [negb]; [| constructor].
      rewrite swap16_load16. fold (wire_dst_port buf).
      destruct (map_get udp_table (wire_dst_port buf)) as [handler |] eqn:Hget;
        cbn [snd]; (constructor; [| constructor]); cbn [call_justified].
      * repeat split; try assumption.
        unfold len, buf_bytes. rewrite length_drop, length_drop.
        unfold len, sizeof_udp_hdr_t in Hlen. lia.
      * repeat split; assumption.
Qed.

(** X2 (the delivered buffer): when [udp_in] delivers a datagram, the
    buffer it leaves has every byte of its memory as on entry, the checksum
    field restored, and [buf->data] moved past the 8 header bytes; the
    payload given to the handler is the content of that buffer. *)
Theorem udp_in_delivery_restores_header (buf : buf_t)
    (handler : udp_handler_t) :
  (sizeof_ip_hdr_t <= data buf)%nat ->
  (sizeof_udp_hdr_t <= len buf)%nat ->
  checksum_matches net_if_ip buf src_ip ->
  map_get udp_table (wire_dst_port buf) = Some handler ->
  let left := fst (udp_in udp_table net_if_ip buf src_ip) in
  mem left = mem buf /\
  data left = (data buf + sizeof_udp_hdr_t)%nat /\
  load16 (mem left) (data buf + off_checksum16) =
    load16 (mem buf) (data buf + off_checksum16) /\
  snd (udp_in udp_table net_if_ip buf src_ip) =
    [handler_call handler (buf_bytes left) (len left) src_ip
       (load16 (mem buf) (data buf + off_src_port16))].
Proof.
  intros Hroom Hlen Hsum Hport left. unfold left.
  rewrite udp_in_cases by assumption.
  unfold checksum_matches in Hsum. rewrite <- Hsum, Z.eqb_refl. cbn [negb].
  rewrite swap16_load16. fold (wire_dst_port buf). rewrite Hport.
  cbn [fst snd]. unfold buf_remove_header.
  destruct (Nat.leb_spec sizeof_udp_hdr_t (len buf)) as [_ | Hlt]; [| lia].
  cbn [mem data]. repeat split.
  unfold buf_bytes, len; cbn [mem data].
  rewrite drop_drop.
  replace (length (mem buf) - (data buf + sizeof_udp_hdr_t))%nat
    with (length (mem buf) - data buf - sizeof_udp_hdr_t)%nat by lia.
  reflexivity.
Qed.

(** X3 (the source port reaches the handler unconverted): when [udp_in]
    delivers a datagram, the port it passes to the handler is the header's
    source-port field as the host reads it (line 102 applies no [swap16]):
    the sender's port with its two bytes exchanged, which is the sender's
    port exactly when the two bytes of the field are equal. *)
Theorem udp_in_src_port_unconverted (buf : buf_t) (handler : udp_handler_t) :
  (sizeof_ip_hdr_t <= data buf)%nat ->
  (sizeof_udp_hdr_t <= len buf)%nat ->
  checksum_matches net_if_ip buf src_ip ->
  map_get udp_table (wire_dst_port buf) = Some handler ->
  snd (udp_in udp_table net_if_ip buf src_ip) =
    [handler_call handler (drop sizeof_udp_hdr_t (buf_bytes buf))
       (len buf - sizeof_udp_hdr_t) src_ip (swap16 (wire_src_port buf))] /\
  (swap16 (wire_src_port buf) = wire_src_port buf <->
   byte_at (mem buf) (data buf + off_src_port16) =
   byte_at (mem buf) (S (data buf + off_src_port16))).
Proof.
  intros Hroom Hlen Hsum Hport. split.
  - rewrite udp_in_cases by assumption.
    unfold checksum_matches in Hsum. rewrite <- Hsum, Z.eqb_refl. cbn [negb].
    rewrite swap16_load16. fold (wire_dst_port buf). rewrite Hport.
    cbn [snd]. rewrite load16_is_swapped. reflexivity.
  - unfold wire_src_port. rewrite <- load16_is_swapped.
    unfold load16, be16_at.
    set (b0 := byte_at (mem buf) (data buf + off_src_port16)).
    set (b1 := byte_at (mem buf) (S (data buf + off_src_port16))).
    pose proof (Z_of_byte_range b0). pose proof (Z_of_byte_range b1).
    split.
    + intros E. apply Z_of_byte_inj. lia.
    + intros E. rewrite E. lia.
Qed.

(** X6 (other ports do not matter): opening or closing a port other than
    the one a datagram is addressed to changes nothing in what [udp_in]
    does with that datagram. *)
Theorem udp_in_other_port_frame (buf : buf_t) (port : Z)
    (handler : udp_handler_t) :
  (sizeof_ip_hdr_t <= data buf)%nat ->
  wire_dst_port buf <> u16 port ->
  udp_in (snd (udp_open udp_table port handler)) net_if_ip buf src_ip =
    udp_in udp_table net_if_ip buf src_ip /\
  udp_in (udp_close udp_table port) net_if_ip buf src_ip =
    udp_in udp_table net_if_ip buf src_ip.
Proof.
  intros Hroom Hne.
  destruct (Nat.lt_ge_cases (len buf) sizeof_udp_hdr_t) as [Hshort | Hlen].
  - unfold udp_in.
    destruct (Nat.ltb_spec (len buf) sizeof_udp_hdr_t) as [_ | Hge]; [| lia].
    split; reflexivity.
  - rewrite !udp_in_cases by assumption.
    rewrite swap16_load16. fold (wire_dst_port buf).
    unfold udp_open, udp_close.
    rewrite map_get_map_set_other, map_get_map_delete_other
      by (apply not_eq_sym; exact Hne).
    split; reflexivity.
Qed.

End MoreInbound.

Lemma udp_in_calls_justified_sample_tx :
  (sizeof_ip_hdr_t <= data sample_tx)%nat /\
  (length (snd (udp_in dns_table ip_B sample_tx ip_A)) <= 1)%nat /\
  Forall (call_justified dns_table ip_B sample_tx ip_A)
    (snd (udp_in dns_table ip_B sample_tx ip_A)).
Proof.
  assert (H1 : (sizeof_ip_hdr_t <= data sample_tx)%nat) by (vm_compute; lia).
  split; [exact H1 |].
  split.
  - exact (proj1 (udp_in_calls_justified dns_table ip_B ip_A sample_tx)).
  - exact (proj2 (udp_in_calls_justified dns_table ip_B ip_A sample_tx) H1).
Defined.

Lemma udp_in_delivery_restores_header_sample_tx :
  ((sizeof_ip_hdr_t <= data sample_tx)%nat /\
   (sizeof_udp_hdr_t <= len sample_tx)%nat /\
   checksum_matches ip_B sample_tx ip_A /\
   map_get dns_table (wire_dst_port sample_tx) = Some dns_handler) /\
  (mem (fst (udp_in dns_table ip_B sample_tx ip_A)) = mem sample_tx /\
   data (fst (udp_in dns_table ip_B sample_tx ip_A)) =
     (data sample_tx + sizeof_udp_hdr_t)%nat /\
   load16 (mem (fst (udp_in dns_table ip_B sample_tx ip_A)))
     (data sample_tx + off_checksum16) =
     load16 (mem sample_tx) (data sample_tx + off_checksum16) /\
   snd (udp_in dns_table ip_B sample_tx ip_A) =
     [handler_call dns_handler
        (buf_bytes (fst (udp_in dns_table ip_B sample_tx ip_A)))
        (len (fst (udp_in dns_table ip_B sample_tx ip_A))) ip_A
        (load16 (mem sample_tx) (data sample_tx + off_src_port16))]).
Proof.
  assert (H1 : (sizeof_ip_hdr_t <= data sample_tx)%nat) by (vm_compute; lia).
  assert (H2 : (sizeof_udp_hdr_t <= len sample_tx)%nat) by (vm_compute; lia).
  assert (H3 : checksum_matches ip_B sample_tx ip_A)
    by (vm_compute; reflexivity).
  assert (H4 : map_get dns_table (wire_dst_port sample_tx) = Some dns_handler)
    by (vm_compute; reflexivity).
  split.
  - repeat split; assumption.
  - exact (udp_in_delivery_restores_header dns_table ip_B ip_A sample_tx
             dns_handler H1 H2 H3 H4).
Defined.

Lemma udp_in_src_port_unconverted_sample_tx :
  ((sizeof_ip_hdr_t <= data sample_tx)%nat /\
   (sizeof_udp_hdr_t <= len sample_tx)%nat /\
   checksum_matches ip_B sample_tx ip_A /\
   map_get dns_table (wire_dst_port sample_tx) = Some dns_handler) /\
  (snd (udp_in dns_table ip_B sample_tx ip_A) =
     [handler_call dns_handler (drop sizeof_udp_hdr_t (buf_bytes sample_tx))
        (len sample_tx - sizeof_udp_hdr_t) ip_A
        (swap16 (wire_src_port sample_tx))] /\
   (swap16 (wire_src_port sample_tx) = wire_src_port sample_tx <->
    byte_at (mem sample_tx) (data sample_tx + off_src_port16) =
    byte_at (mem sample_tx) (S (data sample_tx + off_src_port16)))).
Proof.
  assert (H1 : (sizeof_ip_hdr_t <= data sample_tx)%nat) by (vm_compute; lia).
  assert (H2 : (sizeof_udp_hdr_t <= len sample_tx)%nat) by (vm_compute; lia).
  assert (H3 : checksum_matches ip_B sample_tx ip_A)
    by (vm_compute; reflexivity).
  assert (H4 : map_get dns_table (wire_dst_port sample_tx) = Some dns_handler)
    by (vm_compute; reflexivity).
  split.
  - repeat split; assumption.
  - exact (udp_in_src_port_unconverted dns_table ip_B ip_A sample_tx
             dns_handler H1 H2 H3 H4).
Defined.

Lemma udp_in_other_port_frame_sample_tx :
  ((sizeof_ip_hdr_t <= data sample_tx)%nat /\
   wire_dst_port sample_tx <> u16 7) /\
  (udp_in (snd (udp_open dns_table 7 echo_handler)) ip_B sample_tx ip_A =
     udp_in dns_table ip_B sample_tx ip_A /\
   udp_in (udp_close dns_table 7) ip_B sample_tx ip_A =
     udp_in dns_table ip_B sample_tx ip_A).
Proof.
  assert (H1 : (sizeof_ip_hdr_t <= data sample_tx)%nat) by (vm_compute; lia).
  assert (H2 : wire_dst_port sample_tx <> u16 7)
    by (vm_compute; discriminate).
  split; [split; assumption |].
  exact (udp_in_other_port_frame dns_table ip_B ip_A sample_tx 7 echo_handler
           H1 H2).
Defined.

(** ** Sending and receiving *)

Section SendReceive.

Context {udp_handler_t : Type}.
Variables (udp_table : map_t udp_handler_t).
Variables (ip_src ip_dst : ip_t) (src_port dst_port : Z).

(** What [udp_in] at the destination reads in the buffer [udp_out] built. *)
Lemma udp_out_as_received (buf : buf_t) :
  (sizeof_udp_hdr_t + sizeof_ip_hdr_t <= data buf)%nat ->
  (data buf <= length (mem buf))%nat ->
  let tx :=
    fst (udp_out (udp_handler_t := udp_handler_t)
           ip_src buf src_port ip_dst dst_port) in
  wire_dst_port tx = u16 dst_port /\
  wire_src_port tx = u16 src_port /\
  drop sizeof_udp_hdr_t (buf_bytes tx) = buf_bytes buf /\
  (len tx - sizeof_udp_hdr_t)%nat = len buf.
Proof.
  intros Hroom Hwf tx0. unfold tx0. clear tx0.
  rewrite (udp_out_spec (udp_handler_t := udp_handler_t)
             ip_src ip_dst src_port dst_port buf Hroom Hwf).
  cbn [fst]. unfold sizeof_udp_hdr_t, sizeof_ip_hdr_t in *.
  set (checksum := checksum16 _).
  set (pre := take (data buf - 8) (mem buf)).
  assert (Hpre : length pre = (data buf - 8)%nat)
    by (unfold pre; rewrite length_take; lia).
  assert (Hlen : length (buf_bytes buf) = len buf)
    by (unfold buf_bytes, len; apply length_drop).
  set (tx := mk_buf (pre ++ udp_datagram src_port dst_port checksum
                                (buf_bytes buf)) (data buf - 8)).
  assert (Hbytes : buf_bytes tx
                   = udp_datagram src_port dst_port checksum (buf_bytes buf)).
  { unfold tx, buf_bytes at 1; cbn [mem data].
    rewrite <- Hpre. apply drop_app_length. }
  split; [| split; [| split]].
  - unfold wire_dst_port, tx; cbn [mem data].
    rewrite <- Hpre, be16_at_app.
    apply (be16_value (u16 dst_port)), u16_range.
  - unfold wire_src_port, tx; cbn [mem data].
    rewrite <- Hpre, be16_at_app.
    apply (be16_value (u16 src_port)), u16_range.
  - rewrite Hbytes. reflexivity.
  - unfold len at 1, tx; cbn [mem data].
    rewrite length_app. unfold udp_datagram. rewrite !length_app.
    cbn [length be16 bytes_of_u16]. lia.
Qed.

(** [udp_send] is [udp_out] on a fresh buffer that holds the first [n]
    bytes of the data. *)
Lemma udp_send_as_udp_out (room payload : list byte) (n : Z) :
  (Z.to_nat (u16 n) <= length payload)%nat ->
  udp_send (udp_handler_t := udp_handler_t)
    ip_src room payload n src_port ip_dst dst_port =
  udp_out ip_src
    (mk_buf (room ++ take (Z.to_nat (u16 n)) payload) (length room))
    src_port ip_dst dst_port.
Proof.
  intros Hn. unfold udp_send. cbv zeta. f_equal.
  unfold buf_init, buf_write; cbn [mem data]. f_equal.
  rewrite <- (app_nil_r (repeat x00 (Z.to_nat (u16 n)))).
  rewrite mem_write_at by (rewrite repeat_length, length_take; lia).
  rewrite app_nil_r. reflexivity.
Qed.

(** X4 (what is sent is what is delivered): for every data, every length
    [n] within it (zero included) and every pair of ports, the datagram
    [udp_send] builds on a host with address [ip_src] for [ip_dst] is, at
    [ip_dst], delivered by [udp_in] to the handler registered under the
    destination port with exactly the first [n] bytes of the data, [n] as
    length and [ip_src] as sender, the source port arriving with its bytes
    exchanged; with no handler under that port the one call is the
    port-unreachable notification to [ip_src]. *)
Theorem udp_send_then_udp_in (room payload : list byte) (n : Z) :
  (sizeof_udp_hdr_t + sizeof_ip_hdr_t <= length room)%nat ->
  (Z.to_nat (u16 n) <= length payload)%nat ->
  let tx :=
    fst (udp_send (udp_handler_t := udp_handler_t)
           ip_src room payload n src_port ip_dst dst_port) in
  (forall handler : udp_handler_t,
     map_get udp_table (u16 dst_port) = Some handler ->
     snd (udp_in udp_table ip_dst tx ip_src) =
     [handler_call handler (take (Z.to_nat (u16 n)) payload)
        (Z.to_nat (u16 n)) ip_src (swap16 (u16 src_port))]) /\
  (map_get udp_table (u16 dst_port) = None ->
   snd (udp_in udp_table ip_dst tx ip_src) =
   [icmp_unreachable (buf_add_header tx sizeof_ip_hdr_t) ip_src
      ICMP_CODE_PORT_UNREACH]).
Proof.
  intros Hroom Hn tx. unfold tx. rewrite udp_send_as_udp_out by exact Hn.
  set (buf := mk_buf (room ++ take (Z.to_nat (u16 n)) payload) (length room)).
  assert (Hroom' : (sizeof_udp_hdr_t + sizeof_ip_hdr_t <= data buf)%nat)
    by exact Hroom.
  assert (Hwf : (data buf <= length (mem buf))%nat)
    by (unfold buf; cbn [mem data]; rewrite length_app; lia).
  destruct (udp_out_verifies (udp_handler_t := udp_handler_t)
              ip_src ip_dst src_port dst_port buf Hroom' Hwf)
    as (Hroom2 & Hlen2 & Hok).
  destruct (udp_out_as_received buf Hroom' Hwf)
    as (Hdst & Hsrc & Hpayload & Hplen).
  assert (Hbytes : buf_bytes buf = take (Z.to_nat (u16 n)) payload)
    by (unfold buf, buf_bytes; cbn [mem data]; apply drop_app_length).
  assert (Hblen : len buf = Z.to_nat (u16 n)).
  { unfold len, buf; cbn [mem data].
    rewrite length_app, length_take. lia. }
  rewrite udp_in_cases by assumption.
  unfold checksum_matches in Hok. rewrite <- Hok, Z.eqb_refl. cbn [negb].
  rewrite swap16_load16.
  fold (wire_dst_port
          (fst (udp_out (udp_handler_t := udp_handler_t)
                  ip_src buf src_port ip_dst dst_port))).
  rewrite Hdst. split.
  - intros handler Hget. rewrite Hget. cbn [snd].
    rewrite Hpayload, Hplen, Hbytes, Hblen, load16_is_swapped.
    fold (wire_src_port
            (fst (udp_out (udp_handler_t := udp_handler_t)
                    ip_src buf src_port ip_dst dst_port))).
    rewrite Hsrc. reflexivity.
  - intros Hget. rewrite Hget. reflexivity.
Qed.

(** X5 ([udp_send] transmits the first [n] bytes): on a transmit buffer
    with room for the UDP and IP headers, [udp_send] makes one call,
    [ip_out] for the given destination and the UDP protocol number, on a
    buffer whose content is the 8-byte header followed by exactly the first
    [n] bytes of the data, [n] being the length argument as a [uint16_t];
    the header's checksum is the one of that datagram with the local
    address as source; the head-room in front of the header is as the
    allocator left it. *)
Theorem udp_send_transmits_prefix (room payload : list byte) (n : Z) :
  (sizeof_udp_hdr_t + sizeof_ip_hdr_t <= length room)%nat ->
  (Z.to_nat (u16 n) <= length payload)%nat ->
  let sent := take (Z.to_nat (u16 n)) payload in
  let checksum :=
    checksum16
      (checksum_region ip_src ip_dst
         (udp_datagram src_port dst_port 0 sent)) in
  let tx :=
    fst (udp_send (udp_handler_t := udp_handler_t)
           ip_src room payload n src_port ip_dst dst_port) in
  snd (udp_send (udp_handler_t := udp_handler_t)
         ip_src room payload n src_port ip_dst dst_port)
    = [ip_out tx ip_dst NET_PROTOCOL_UDP] /\
  buf_bytes tx = udp_datagram src_port dst_port checksum sent /\
  len tx = (sizeof_udp_hdr_t + Z.to_nat (u16 n))%nat /\
  headroom tx = take (length room - sizeof_udp_hdr_t) room.
Proof.
  intros Hroom Hn sent checksum tx. unfold tx.
  rewrite udp_send_as_udp_out by exact Hn. fold sent.
  set (buf := mk_buf (room ++ sent) (length room)).
  assert (Hroom' : (sizeof_udp_hdr_t + sizeof_ip_hdr_t <= data buf)%nat)
    by exact Hroom.
  assert (Hwf : (data buf <= length (mem buf))%nat)
    by (unfold buf; cbn [mem data]; rewrite length_app; lia).
  assert (Hbytes : buf_bytes buf = sent)
    by (unfold buf, buf_bytes; cbn [mem data]; apply drop_app_length).
  assert (Hsent : length sent = Z.to_nat (u16 n))
    by (unfold sent; rewrite length_take; lia).
  pose proof (udp_out_spec (udp_handler_t := udp_handler_t)
                ip_src ip_dst src_port dst_port buf Hroom' Hwf) as Hout.
  cbv zeta in Hout. rewrite Hbytes in Hout. fold checksum in Hout.
  rewrite Hout. cbn [fst snd].
  unfold sizeof_udp_hdr_t, sizeof_ip_hdr_t in *.
  assert (Hpre : take (data buf - 8) (mem buf) = take (length room - 8) room).
  { unfold buf; cbn [mem data]. apply take_app_le. lia. }
  rewrite Hpre.
  assert (Hplen : length (take (length room - 8) room) = (length room - 8)%nat)
    by (rewrite length_take; lia).
  split; [reflexivity |]. split; [| split].
  - unfold buf_bytes, buf; cbn [mem data].
    rewrite <- Hplen at 1. apply drop_app_length.
  - unfold len, buf; cbn [mem data]. rewrite length_app, Hplen.
    unfold udp_datagram. rewrite !length_app.
    cbn [length be16 bytes_of_u16]. lia.
  - unfold headroom, buf; cbn [mem data].
    rewrite <- Hplen at 1. apply take_app_length.
Qed.

End SendReceive.

Lemma udp_send_then_udp_in_hi :
  ((sizeof_udp_hdr_t + sizeof_ip_hdr_t <= length sample_room)%nat /\
   (Z.to_nat (u16 2) <= length data_hi_bang)%nat /\
   map_get dns_table (u16 53) = Some dns_handler /\
   take (Z.to_nat (u16 2)) data_hi_bang = payload_hi) /\
  ((forall handler : app_handler,
      map_get dns_table (u16 53) = Some handler ->
      snd (udp_in dns_table ip_B
             (fst (udp_send (udp_handler_t := app_handler)
                     ip_A sample_room data_hi_bang 2 12345 ip_B 53)) ip_A) =
      [handler_call handler (take (Z.to_nat (u16 2)) data_hi_bang)
         (Z.to_nat (u16 2)) ip_A (swap16 (u16 12345))]) /\
   (map_get dns_table (u16 53) = None ->
    snd (udp_in dns_table ip_B
           (fst (udp_send (udp_handler_t := app_handler)
                   ip_A sample_room data_hi_bang 2 12345 ip_B 53)) ip_A) =
    [icmp_unreachable
       (buf_add_header
          (fst (udp_send (udp_handler_t := app_handler)
                  ip_A sample_room data_hi_bang 2 12345 ip_B 53))
          sizeof_ip_hdr_t) ip_A ICMP_CODE_PORT_UNREACH])).
Proof.
  split.
  - split; [vm_compute; lia |]. split; [vm_compute; lia |].
    split; vm_compute; reflexivity.
  - apply (udp_send_then_udp_in dns_table ip_A ip_B 12345 53
             sample_room data_hi_bang 2); vm_compute; lia.
Defined.

Lemma udp_send_transmits_prefix_of_hi :
  ((sizeof_udp_hdr_t + sizeof_ip_hdr_t <= length sample_room)%nat /\
   (Z.to_nat (u16 1) <= length payload_hi)%nat) /\
  (let sent := take (Z.to_nat (u16 1)) payload_hi in
   let checksum :=
     checksum16
       (checksum_region ip_A ip_B (udp_datagram 12345 53 0 sent)) in
   let tx :=
     fst (udp_send (udp_handler_t := app_handler)
            ip_A sample_room payload_hi 1 12345 ip_B 53) in
   snd (udp_send (udp_handler_t := app_handler)
          ip_A sample_room payload_hi 1 12345 ip_B 53)
     = [ip_out tx ip_B NET_PROTOCOL_UDP] /\
   buf_bytes tx = udp_datagram 12345 53 checksum sent /\
   len tx = (sizeof_udp_hdr_t + Z.to_nat (u16 1))%nat /\
   headroom tx = take (length sample_room - sizeof_udp_hdr_t) sample_room).
Proof.
  split.
  - split; vm_compute; lia.
  - apply (udp_send_transmits_prefix (udp_handler_t := app_handler)
             ip_A ip_B 12345 53 sample_room payload_hi 1); vm_compute; lia.
Defined.

(** ** Registering, then receiving *)

Section OpenCloseReceive.

Context {udp_handler_t : Type}.
Variables (udp_table : map_t udp_handler_t) (net_if_ip src_ip : ip_t).

(** X7 (the registry decides the dispatch): for a datagram that verifies
    and is addressed to port [port], after a successful [udp_open] of that
    port [udp_in] delivers it to the handler just registered, whatever was
    registered before; after [udp_close] of that port [udp_in] answers it
    with the port-unreachable notification and calls no handler. *)
Theorem udp_open_close_then_udp_in (buf : buf_t) (port : Z)
    (handler : udp_handler_t) :
  (sizeof_ip_hdr_t <= data buf)%nat ->
  (sizeof_udp_hdr_t <= len buf)%nat ->
  checksum_matches net_if_ip buf src_ip ->
  wire_dst_port buf = u16 port ->
  (fst (udp_open udp_table port handler) = 0 ->
   snd (udp_in (snd (udp_open udp_table port handler)) net_if_ip buf src_ip) =
   [handler_call handler (drop sizeof_udp_hdr_t (buf_bytes buf))
      (len buf - sizeof_udp_hdr_t) src_ip
      (load16 (mem buf) (data buf + off_src_port16))]) /\
  snd (udp_in (udp_close udp_table port) net_if_ip buf src_ip) =
  [icmp_unreachable (buf_add_header buf sizeof_ip_hdr_t) src_ip
     ICMP_CODE_PORT_UNREACH].
Proof.
  intros Hroom Hlen Hsum Hport.
  rewrite !udp_in_cases by assumption.
  unfold checksum_matches in Hsum. rewrite <- Hsum, Z.eqb_refl. cbn [negb].
  rewrite swap16_load16. fold (wire_dst_port buf). rewrite Hport.
  split.
  - intros Hret.
    assert (Hget : map_get (snd (udp_open udp_table port handler)) (u16 port)
                   = Some handler).
    { revert Hret. unfold udp_open, map_set, map_get.
      destruct (entries udp_table !! u16 port);
        [| destruct (size (entries udp_table) <? capacity udp_table)%nat];
        cbn [fst snd entries]; intros Hret;
        try (apply lookup_insert_eq); discriminate Hret. }
    rewrite Hget. reflexivity.
  - assert (Hget : map_get (udp_close udp_table port) (u16 port) = None)
      by (unfold udp_close, map_delete, map_get; cbn [entries];
          apply lookup_delete_eq).
    rewrite Hget. reflexivity.
Qed.

End OpenCloseReceive.

Lemma udp_open_close_then_udp_in_sample_tx :
  ((sizeof_ip_hdr_t <= data sample_tx)%nat /\
   (sizeof_udp_hdr_t <= len sample_tx)%nat /\
   checksum_matches ip_B sample_tx ip_A /\
   wire_dst_port sample_tx = u16 53) /\
  ((fst (udp_open dns_table 53 echo_handler) = 0 ->
    snd (udp_in (snd (udp_open dns_table 53 echo_handler)) ip_B sample_tx
           ip_A) =
    [handler_call echo_handler (drop sizeof_udp_hdr_t (buf_bytes sample_tx))
       (len sample_tx - sizeof_udp_hdr_t) ip_A
       (load16 (mem sample_tx) (data sample_tx + off_src_port16))]) /\
   snd (udp_in (udp_close dns_table 53) ip_B sample_tx ip_A) =
   [icmp_unreachable (buf_add_header sample_tx sizeof_ip_hdr_t) ip_A
      ICMP_CODE_PORT_UNREACH]).
Proof.
  assert (H1 : (sizeof_ip_hdr_t <= data sample_tx)%nat) by (vm_compute; lia).
  assert (H2 : (sizeof_udp_hdr_t <= len sample_tx)%nat) by (vm_compute; lia).
  assert (H3 : checksum_matches ip_B sample_tx ip_A)
    by (vm_compute; reflexivity).
  assert (H4 : wire_dst_port sample_tx = u16 53) by (vm_compute; reflexivity).
  split.
  - repeat split; assumption.
  - exact (udp_open_close_then_udp_in dns_table ip_B ip_A sample_tx 53
             echo_handler H1 H2 H3 H4).
Defined.

(** ** The length field of a long datagram *)

Lemma udp_out_length_field {udp_handler_t : Type}
    (net_if_ip dst_ip : ip_t) (src_port dst_port : Z) (buf : buf_t) :
  (sizeof_udp_hdr_t + sizeof_ip_hdr_t <= data buf)%nat ->
  (data buf <= length (mem buf))%nat ->
  wire_total_len
    (fst (udp_out (udp_handler_t := udp_handler_t)
            net_if_ip buf src_port dst_ip dst_port))
  = u16 (Z.of_nat (sizeof_udp_hdr_t + len buf)).
Proof.
  intros Hroom Hwf.
  rewrite (udp_out_spec (udp_handler_t := udp_handler_t)
             net_if_ip dst_ip src_port dst_port buf Hroom Hwf).
  cbn [fst]. unfold sizeof_udp_hdr_t, sizeof_ip_hdr_t in *.
  set (checksum := checksum16 _).
  set (pre := take (data buf - 8) (mem buf)).
  assert (Hpre : length pre = (data buf - 8)%nat)
    by (unfold pre; rewrite length_take; lia).
  assert (Hlen : length (buf_bytes buf) = len buf)
    by (unfold buf_bytes, len; apply length_drop).
  unfold wire_total_len; cbn [mem data].
  rewrite <- Hpre, be16_at_app, <- Hlen.
  apply (be16_value (u16 (Z.of_nat (8 + length (buf_bytes buf))))), u16_range.
Qed.

(** C7, as stated, fails on a long payload: [udp_send] called with 65528
    bytes of data, a length its [uint16_t] argument holds, transmits all of
    them behind a header whose length field is 0, not 8 + 65528. *)
Lemma udp_send_length_field_wraps :
  let tx :=
    fst (udp_send (udp_handler_t := app_handler)
           ip_A sample_room oversize_payload 65528 12345 ip_B 53) in
  Z.of_nat (length oversize_payload) = 65528 /\
  drop sizeof_udp_hdr_t (buf_bytes tx) = oversize_payload /\
  wire_total_len tx = 0 /\
  wire_total_len tx <> 8 + Z.of_nat (length oversize_payload).
Proof.
  assert (Hlen : length oversize_payload = Z.to_nat 65528)
    by (unfold oversize_payload; apply repeat_length).
  assert (Hn : Z.to_nat (u16 65528) = Z.to_nat 65528) by reflexivity.
  assert (Hroom : length sample_room = 40%nat) by reflexivity.
  cbv zeta.
  rewrite (udp_send_as_udp_out (udp_handler_t := app_handler))
    by (rewrite Hn, Hlen; lia).
  rewrite Hn, <- Hlen, take_ge by lia.
  set (buf := mk_buf (sample_room ++ oversize_payload) (length sample_room)).
  assert (Hroom' : (sizeof_udp_hdr_t + sizeof_ip_hdr_t <= data buf)%nat)
    by (unfold buf, sizeof_udp_hdr_t, sizeof_ip_hdr_t; cbn [data];
        rewrite Hroom; lia).
  assert (Hwf : (data buf <= length (mem buf))%nat)
    by (unfold buf; cbn [mem data]; rewrite length_app; lia).
  assert (Hblen : len buf = length oversize_payload)
    by (unfold len, buf; cbn [mem data]; rewrite length_app; lia).
  destruct (udp_out_as_received (udp_handler_t := app_handler)
              ip_A ip_B 12345 53 buf Hroom' Hwf) as (_ & _ & Hpayload & _).
  assert (Hfield : wire_total_len
                     (fst (udp_out (udp_handler_t := app_handler)
                             ip_A buf 12345 ip_B 53)) = 0).
  { rewrite udp_out_length_field by assumption.
    rewrite Hblen, Hlen. unfold sizeof_udp_hdr_t.
    rewrite Nat2Z.inj_add, Z2Nat.id by lia. reflexivity. }
  split; [rewrite Hlen; apply Z2Nat.id; lia |].
  split.
  { rewrite Hpayload. unfold buf, buf_bytes; cbn [mem data].
    apply drop_app_length. }
  split; [exact Hfield |].
  rewrite Hfield, Hlen, Z2Nat.id by lia. discriminate.
Qed.
